(** * Marker Tab and Enter key navigation (src/index.js)

    A shallow embedding of the marker-navigation controller and the proofs
    of its properties.  The controller keeps its state in the object
    [google.maps.markerNavigation] and talks to the page through marker
    objects, the map, and listeners on [document] and on the map's inner
    [div].  The embedding keeps that shape: a [Page] holds the navigation
    object, the store of marker objects, the map centre, the attached
    listeners and the log of calls made to the host widget; the functions
    of the source are written in a small state monad over [Page]. *)

From Stdlib Require Import ZArith String Bool Lia.
From stdpp Require Import base list option strings.

Local Open Scope Z_scope.

(** ** Data *)

(** Marker objects are passed around by reference, listener handles are
    the objects returned by [google.maps.event.addDomListener]. *)
Abbreviation Ref := nat (only parsing).
Abbreviation Handle := nat (only parsing).

(** Icons are string paths; [None] is JavaScript's [undefined]. *)
Abbreviation Icon := (option string) (only parsing).

Record LatLng := { lat : Z; lng : Z }.

(** A [google.maps.Marker], as far as the controller touches it. *)
Record Marker := { icon : Icon; position : LatLng }.

(** The [icons] argument of [keyNavInit]. *)
Record Icons := { selected : Icon; deselected : Icon }.

(** The key-down event: [e.key] and [e.shiftKey]. *)
Record KeyEvent := { key : string; shiftKey : bool }.

(** The object [google.maps.markerNavigation]. *)
Record Nav := {
  markers : list Ref;
  currentMarker : Z;
  markerIcons : list Icon;
  selectedMarkerIcon : Icon;
  deselectedMarkerIcon : Icon;
  previousMarkerListener : option Handle
}.

(** The two closures the controller attaches to [document]'s key-down:
    the Tab observer of [__addTabNavToMapMarkers], which closes over the
    marker array it read when it was installed, and the Enter listener of
    [__addClickMarkerViaEnterKey], which closes over its marker. *)
Inductive Listener :=
| TabNav (markers0 : list Ref)
| EnterClick (marker : Ref).

(** Calls made to the host widget, in the order they happen. *)
Inductive Effect :=
| SetIcon (r : Ref) (i : Icon)
| PanTo (p : LatLng)
| AddListener (h : Handle) (l : Listener)
| RemoveListener (h : Handle)
| TriggerClick (r : Ref).

Record Page := {
  markerNavigation : Nav;
  heap : Ref -> Marker;                       (* the marker objects *)
  mapCenter : option LatLng;                  (* set by map.panTo *)
  keydownListeners : list (Handle * Listener); (* on document, oldest first *)
  focusoutListeners : nat;                    (* on the map's inner div *)
  nextHandle : Handle;
  activeIsMapDiv : bool;                      (* document.activeElement === mapDiv *)
  defaultPrevented : bool;                    (* of the event being dispatched *)
  effects : list Effect
}.

Instance LatLng_eq_dec : EqDecision LatLng.
Proof. solve_decision. Defined.

Instance Listener_eq_dec : EqDecision Listener.
Proof. solve_decision. Defined.

Instance Effect_eq_dec : EqDecision Effect.
Proof. solve_decision. Defined.

(** ** Field updates *)

Definition withNav (n : Nav) (p : Page) : Page :=
  {| markerNavigation := n; heap := heap p; mapCenter := mapCenter p;
     keydownListeners := keydownListeners p;
     focusoutListeners := focusoutListeners p; nextHandle := nextHandle p;
     activeIsMapDiv := activeIsMapDiv p;
     defaultPrevented := defaultPrevented p; effects := effects p |}.

Definition withMarkers (ms : list Ref) (n : Nav) : Nav :=
  {| markers := ms; currentMarker := currentMarker n;
     markerIcons := markerIcons n;
     selectedMarkerIcon := selectedMarkerIcon n;
     deselectedMarkerIcon := deselectedMarkerIcon n;
     previousMarkerListener := previousMarkerListener n |}.

Definition withCurrentMarker (c : Z) (n : Nav) : Nav :=
  {| markers := markers n; currentMarker := c;
     markerIcons := markerIcons n;
     selectedMarkerIcon := selectedMarkerIcon n;
     deselectedMarkerIcon := deselectedMarkerIcon n;
     previousMarkerListener := previousMarkerListener n |}.

Definition withMarkerIcons (ics : list Icon) (n : Nav) : Nav :=
  {| markers := markers n; currentMarker := currentMarker n;
     markerIcons := ics;
     selectedMarkerIcon := selectedMarkerIcon n;
     deselectedMarkerIcon := deselectedMarkerIcon n;
     previousMarkerListener := previousMarkerListener n |}.

Definition withSelectedMarkerIcon (i : Icon) (n : Nav) : Nav :=
  {| markers := markers n; currentMarker := currentMarker n;
     markerIcons := markerIcons n;
     selectedMarkerIcon := i;
     deselectedMarkerIcon := deselectedMarkerIcon n;
     previousMarkerListener := previousMarkerListener n |}.

Definition withDeselectedMarkerIcon (i : Icon) (n : Nav) : Nav :=
  {| markers := markers n; currentMarker := currentMarker n;
     markerIcons := markerIcons n;
     selectedMarkerIcon := selectedMarkerIcon n;
     deselectedMarkerIcon := i;
     previousMarkerListener := previousMarkerListener n |}.

Definition withPreviousMarkerListener (l : option Handle) (n : Nav) : Nav :=
  {| markers := markers n; currentMarker := currentMarker n;
     markerIcons := markerIcons n;
     selectedMarkerIcon := selectedMarkerIcon n;
     deselectedMarkerIcon := deselectedMarkerIcon n;
     previousMarkerListener := l |}.

(** ** The state monad of the page *)

Definition M (A : Type) : Type := Page -> A * Page.

Definition ret {A} (a : A) : M A := fun p => (a, p).

Definition bind {A B} (m : M A) (k : A -> M B) : M B :=
  fun p => let (a, p') := m p in k a p'.

Notation "x <- m ;; k" := (bind m (fun x => k))
  (at level 100, m at next level, right associativity).
Notation "m ;; k" := (bind m (fun _ => k))
  (at level 100, right associativity).

Definition exec {A} (m : M A) (p : Page) : Page := snd (m p).

Definition when (b : bool) (m : M unit) : M unit := if b then m else ret tt.

(** Reads and writes of [google.maps.markerNavigation]. *)
Definition getNav : M Nav := fun p => (markerNavigation p, p).

Definition modifyNav (f : Nav -> Nav) : M unit :=
  fun p => (tt, withNav (f (markerNavigation p)) p).

(** [document.activeElement === mapDiv]. *)
Definition activeElementIsMapDiv : M bool := fun p => (activeIsMapDiv p, p).

(** [e.preventDefault()]. *)
Definition preventDefault : M unit := fun p =>
  (tt, {| markerNavigation := markerNavigation p; heap := heap p;
          mapCenter := mapCenter p; keydownListeners := keydownListeners p;
          focusoutListeners := focusoutListeners p;
          nextHandle := nextHandle p; activeIsMapDiv := activeIsMapDiv p;
          defaultPrevented := true; effects := effects p |}).

(** Writing the icon of the marker object behind [r]. *)
Definition heapSetIcon (r : Ref) (i : Icon) (h : Ref -> Marker) : Ref -> Marker :=
  fun r' => if Nat.eqb r' r
            then {| icon := i; position := position (h r) |}
            else h r'.

(** [marker.setIcon(i)]. *)
Definition setIcon (r : Ref) (i : Icon) : M unit := fun p =>
  (tt, {| markerNavigation := markerNavigation p;
          heap := heapSetIcon r i (heap p);
          mapCenter := mapCenter p; keydownListeners := keydownListeners p;
          focusoutListeners := focusoutListeners p;
          nextHandle := nextHandle p; activeIsMapDiv := activeIsMapDiv p;
          defaultPrevented := defaultPrevented p;
          effects := effects p ++ [SetIcon r i] |}).

(** [marker.getPosition()]. *)
Definition getPosition (r : Ref) : M LatLng := fun p => (position (heap p r), p).

(** [map.panTo(pos)]. *)
Definition panTo (pos : LatLng) : M unit := fun p =>
  (tt, {| markerNavigation := markerNavigation p; heap := heap p;
          mapCenter := Some pos; keydownListeners := keydownListeners p;
          focusoutListeners := focusoutListeners p;
          nextHandle := nextHandle p; activeIsMapDiv := activeIsMapDiv p;
          defaultPrevented := defaultPrevented p;
          effects := effects p ++ [PanTo pos] |}).

(** [google.maps.event.addDomListener(document, 'keydown', l)]: the
    listener is appended to the document's list and a new handle is
    returned. *)
Definition addDomListener (l : Listener) : M Handle := fun p =>
  (nextHandle p,
   {| markerNavigation := markerNavigation p; heap := heap p;
      mapCenter := mapCenter p;
      keydownListeners := keydownListeners p ++ [(nextHandle p, l)];
      focusoutListeners := focusoutListeners p;
      nextHandle := S (nextHandle p); activeIsMapDiv := activeIsMapDiv p;
      defaultPrevented := defaultPrevented p;
      effects := effects p ++ [AddListener (nextHandle p) l] |}).

Definition attached (h : Handle) (ls : list (Handle * Listener)) : bool :=
  existsb (fun hl => Nat.eqb (fst hl) h) ls.

Definition detach (h : Handle) (ls : list (Handle * Listener))
  : list (Handle * Listener) :=
  List.filter (fun hl => negb (Nat.eqb (fst hl) h)) ls.

(** [handle.remove()]. *)
Definition remove (h : Handle) : M unit := fun p =>
  (tt, {| markerNavigation := markerNavigation p; heap := heap p;
          mapCenter := mapCenter p;
          keydownListeners := detach h (keydownListeners p);
          focusoutListeners := focusoutListeners p;
          nextHandle := nextHandle p; activeIsMapDiv := activeIsMapDiv p;
          defaultPrevented := defaultPrevented p;
          effects := effects p ++ [RemoveListener h] |}).

(** [google.maps.event.trigger(marker, 'click')]. *)
Definition trigger (r : Ref) : M unit := fun p =>
  (tt, {| markerNavigation := markerNavigation p; heap := heap p;
          mapCenter := mapCenter p; keydownListeners := keydownListeners p;
          focusoutListeners := focusoutListeners p;
          nextHandle := nextHandle p; activeIsMapDiv := activeIsMapDiv p;
          defaultPrevented := defaultPrevented p;
          effects := effects p ++ [TriggerClick r] |}).

(** [internalMapDiv.addEventListener('focusout', ...)]. *)
Definition addFocusoutListener : M unit := fun p =>
  (tt, {| markerNavigation := markerNavigation p; heap := heap p;
          mapCenter := mapCenter p; keydownListeners := keydownListeners p;
          focusoutListeners := S (focusoutListeners p);
          nextHandle := nextHandle p; activeIsMapDiv := activeIsMapDiv p;
          defaultPrevented := defaultPrevented p; effects := effects p |}).

(** [a[i]] on a JavaScript array: [undefined] outside the array. *)
Definition js_index {A} (a : list A) (i : Z) : option A :=
  if i <? 0 then None else a !! Z.to_nat i.

(** Truthiness of an icon path: [undefined] and the empty string are falsy. *)
Definition truthy (i : Icon) : bool :=
  match i with
  | Some s => negb (String.eqb s EmptyString)
  | None => false
  end.

Definition isTab (e : KeyEvent) : bool := String.eqb (key e) "Tab".
Definition isEnter (e : KeyEvent) : bool := String.eqb (key e) "Enter".

(** ** The functions of src/index.js

    The [map] and [mapDiv] arguments are dropped: the page has one map and
    one container, and the functions only pass them on.  The [markers]
    argument is an array, for which [markers || []] is [markers]. *)

(** [__getMarkerIconsFromMarkers], lines 261-267. *)
Definition __getMarkerIconsFromMarkers (ms : list Ref) : M (list Icon) :=
  fun p => (map (fun r => icon (heap p r)) ms, p).

(** [__addClickMarkerViaEnterKey], lines 239-254. *)
Definition __addClickMarkerViaEnterKey (marker : option Ref) : M (option Handle) :=
  match marker with
  | None => ret None
  | Some r => h <- addDomListener (EnterClick r) ;; ret (Some h)
  end.

(** The closure it attaches, lines 246-252. *)
Definition enterListener (marker : Ref) (e : KeyEvent) : M unit :=
  active <- activeElementIsMapDiv ;;
  when (active && isEnter e) (trigger marker).

(** [__selectMarker], lines 220-228. *)
Definition __selectMarker (marker : option Ref) : M (option Handle) :=
  match marker with
  | None => ret None
  | Some r =>
      nav <- getNav ;;
      setIcon r (selectedMarkerIcon nav) ;;
      pos <- getPosition r ;;
      panTo pos ;;
      __addClickMarkerViaEnterKey (Some r)
  end.

(** The icon a deselected marker gets, lines 199-201. *)
Definition restoreIcon (nav : Nav) : Icon :=
  if Nat.eqb (length (markerIcons nav)) 0
  then deselectedMarkerIcon nav
  else mjoin (js_index (markerIcons nav) (currentMarker nav)).

(** [__deselectMarker], lines 195-206. *)
Definition __deselectMarker (enterListener : option Handle) (marker : option Ref)
  : M unit :=
  match marker with
  | None => ret tt
  | Some r =>
      nav <- getNav ;;
      setIcon r (restoreIcon nav) ;;
      match enterListener with
      | Some h => remove h
      | None => ret tt
      end
  end.

(** [__iterateMarkers], lines 164-183. *)
Definition __iterateMarkers (listener : option Handle) (shift : bool)
  : M (option Handle) :=
  nav0 <- getNav ;;
  let markers := markers nav0 in
  when (Nat.eqb (length markers) 0) (modifyNav (withCurrentMarker 0)) ;;
  let mod_ := if shift then -1 else 1 in
  nav1 <- getNav ;;
  newListener <- __selectMarker (js_index markers (currentMarker nav1 + mod_)) ;;
  nav2 <- getNav ;;
  __deselectMarker listener (js_index markers (currentMarker nav2)) ;;
  modifyNav (fun n => withCurrentMarker (currentMarker n + mod_) n) ;;
  ret newListener.

(** The Tab observer, lines 96-147; [markers0] is the array the closure
    captured on line 94. *)
Definition tabNavListener (markers0 : list Ref) (e : KeyEvent) : M unit :=
  active <- activeElementIsMapDiv ;;
  if isTab e && negb active then
    let direction := negb (shiftKey e) in
    if direction
    then modifyNav (withCurrentMarker (-1))
    else modifyNav (withCurrentMarker (Z.of_nat (length markers0)))
  else if active && isTab e then
    let shift := shiftKey e in
    nav <- getNav ;;
    l <- __iterateMarkers (previousMarkerListener nav) shift ;;
    modifyNav (withPreviousMarkerListener l) ;;
    nav' <- getNav ;;
    if (Z.of_nat (length markers0) <=? currentMarker nav') && negb shift
    then modifyNav (withCurrentMarker (Z.of_nat (length markers0)))
    else if (currentMarker nav' <=? -1) && shift
    then modifyNav (withCurrentMarker (-1))
    else preventDefault
  else ret tt.

(** [__addTabNavToMapMarkers], lines 92-148. *)
Definition __addTabNavToMapMarkers : M unit :=
  nav <- getNav ;;
  let markers := markers nav in
  addDomListener (TabNav markers) ;;
  ret tt.

(** The focus-out closure of [keyNavInit], lines 66-73. *)
Definition focusoutListener : M unit :=
  nav <- getNav ;;
  __deselectMarker (previousMarkerListener nav)
                   (js_index (markers nav) (currentMarker nav)) ;;
  modifyNav (withCurrentMarker (-1)).

(** [keyNavInit], lines 29-74.  The container the listeners test and
    listen on is the map's inner [div] of lines 31-36; line 45 only
    publishes [updateMarkerCount] on the navigation object. *)
Definition keyNavInit (markers : list Ref) (icons : option Icons)
                      (distinctMarkerIconFlag : bool) : M unit :=
  modifyNav (fun _ =>
    {| markers := markers; currentMarker := -1; markerIcons := [];
       selectedMarkerIcon := None; deselectedMarkerIcon := None;
       previousMarkerListener := None |}) ;;
  __addTabNavToMapMarkers ;;
  match icons with
  | Some icons =>
      when (truthy (selected icons))
           (modifyNav (withSelectedMarkerIcon (selected icons))) ;;
      when (truthy (deselected icons))
           (modifyNav (withDeselectedMarkerIcon (deselected icons)))
  | None => ret tt
  end ;;
  when distinctMarkerIconFlag
       (ics <- __getMarkerIconsFromMarkers markers ;;
        modifyNav (withMarkerIcons ics)) ;;
  addFocusoutListener.

(** [updateMarkerCount], lines 275-283. *)
Definition updateMarkerCount (markers : list Ref) : M unit :=
  modifyNav (withMarkers markers) ;;
  ics <- __getMarkerIconsFromMarkers markers ;;
  modifyNav (withMarkerIcons ics) ;;
  modifyNav (withPreviousMarkerListener None).

(** ** The browser

    What the page does around the controller.  A key-down is dispatched
    to the listeners on [document] wherever the focus is.  The default
    action of a Tab that no listener suppressed moves the focus to another
    element: when the container had the focus it loses it, and [focusout]
    fires on the map's inner [div].  The focus can also enter the
    container (a click, or the Tab that arrives there) and leave it
    (a click elsewhere) at any time; [focusout] bubbles, so the handler
    also runs when an element inside the container loses the focus. *)

Definition runListener (l : Listener) (e : KeyEvent) : M unit :=
  match l with
  | TabNav markers0 => tabNavListener markers0 e
  | EnterClick marker => enterListener marker e
  end.

(** The listeners attached when the dispatch starts run oldest first; one
    that was removed meanwhile is skipped, one added meanwhile waits for
    the next event. *)
Definition isAttached (h : Handle) : M bool :=
  fun p => (attached h (keydownListeners p), p).

Fixpoint dispatchKeydown (ls : list (Handle * Listener)) (e : KeyEvent) : M unit :=
  match ls with
  | [] => ret tt
  | (h, l) :: ls' =>
      live <- isAttached h ;;
      when live (runListener l e) ;;
      dispatchKeydown ls' e
  end.

Fixpoint repeatM (n : nat) (m : M unit) : M unit :=
  match n with
  | O => ret tt
  | S n' => m ;; repeatM n' m
  end.

Definition setActive (b : bool) : M unit := fun p =>
  (tt, {| markerNavigation := markerNavigation p; heap := heap p;
          mapCenter := mapCenter p; keydownListeners := keydownListeners p;
          focusoutListeners := focusoutListeners p;
          nextHandle := nextHandle p; activeIsMapDiv := b;
          defaultPrevented := defaultPrevented p; effects := effects p |}).

Definition newEvent : M unit := fun p =>
  (tt, {| markerNavigation := markerNavigation p; heap := heap p;
          mapCenter := mapCenter p; keydownListeners := keydownListeners p;
          focusoutListeners := focusoutListeners p;
          nextHandle := nextHandle p; activeIsMapDiv := activeIsMapDiv p;
          defaultPrevented := false; effects := effects p |}).

Definition getKeydownListeners : M (list (Handle * Listener)) :=
  fun p => (keydownListeners p, p).
Definition getFocusoutListeners : M nat := fun p => (focusoutListeners p, p).
Definition getDefaultPrevented : M bool := fun p => (defaultPrevented p, p).

(** The container, or an element inside it, loses the focus. *)
Definition focusout : M unit :=
  n <- getFocusoutListeners ;;
  repeatM n focusoutListener ;;
  setActive false.

(** A key-down on the page: the listeners on [document] run on a new
    event object, then the browser performs the key's default action.  A
    Tab that no listener suppressed moves the focus on; when the container
    had it, the container loses it. *)
Definition dispatch (e : KeyEvent) : M unit :=
  newEvent ;;
  ls <- getKeydownListeners ;;
  dispatchKeydown ls e.

Definition defaultAction (e : KeyEvent) : M unit :=
  prevented <- getDefaultPrevented ;;
  active <- activeElementIsMapDiv ;;
  when (isTab e && negb prevented && active) focusout.

Definition keydown (e : KeyEvent) : M unit :=
  dispatch e ;;
  defaultAction e.

Inductive Event :=
| KeyDown (e : KeyEvent)   (* a key goes down *)
| FocusIn                  (* the container becomes the active element *)
| FocusOut.                (* the container or a descendant loses the focus *)

Definition browser (ev : Event) : M unit :=
  match ev with
  | KeyDown e => keydown e
  | FocusIn => setActive true
  | FocusOut => focusout
  end.

Fixpoint run (evs : list Event) : M unit :=
  match evs with
  | [] => ret tt
  | ev :: evs' => browser ev ;; run evs'
  end.

(** A page on which nothing is installed yet. *)
Definition blankPage (h : Ref -> Marker) : Page :=
  {| markerNavigation :=
       {| markers := []; currentMarker := -1; markerIcons := [];
          selectedMarkerIcon := None; deselectedMarkerIcon := None;
          previousMarkerListener := None |};
     heap := h; mapCenter := None; keydownListeners := [];
     focusoutListeners := 0; nextHandle := 0%nat; activeIsMapDiv := false;
     defaultPrevented := false; effects := [] |}.

(** The page after [keyNavInit(mapDiv, map, markers, icons, flag)]. *)
Definition initPage (h : Ref -> Marker) (markers : list Ref)
                    (icons : option Icons) (flag : bool) : Page :=
  exec (keyNavInit markers icons flag) (blankPage h).

Definition cursor (p : Page) : Z := currentMarker (markerNavigation p).

Definition tabKey (shift : bool) : KeyEvent := {| key := "Tab"; shiftKey := shift |}.
Definition enterKey : KeyEvent := {| key := "Enter"; shiftKey := false |}.

Definition Tab : Event := KeyDown (tabKey false).
Definition ShiftTab : Event := KeyDown (tabKey true).

(** The host application: browser events, and calls of the re-bind entry
    point [google.maps.markerNavigation.updateMarkerCount]. *)
Inductive Action :=
| Input (ev : Event)
| Rebind (markers : list Ref).

Definition host (a : Action) : M unit :=
  match a with
  | Input ev => browser ev
  | Rebind markers => updateMarkerCount markers
  end.

Fixpoint runHost (acts : list Action) : M unit :=
  match acts with
  | [] => ret tt
  | a :: acts' => host a ;; runHost acts'
  end.

(** ** Observations *)

(** The direction of a step, [mod] on lines 169-171. *)
Definition stepOf (shift : bool) : Z := if shift then -1 else 1.

(** The cursor [__iterateMarkers] works with: line 167 has set it to 0
    when the stored array is empty. *)
Definition guardedCursor (n : Nav) : Z :=
  if Nat.eqb (length (markers n)) 0 then 0 else currentMarker n.

(** The icon restored to a marker vacated at index [c]. *)
Definition restoreIconAt (n : Nav) (c : Z) : Icon :=
  if Nat.eqb (length (markerIcons n)) 0
  then deselectedMarkerIcon n
  else mjoin (js_index (markerIcons n) c).

(** The calls [__selectMarker] makes for the marker [m] on the page [p],
    and the calls [__deselectMarker] makes when the cursor is [c]. *)
Definition selectEffects (p : Page) (m : option Ref) : list Effect :=
  match m with
  | Some r => [SetIcon r (selectedMarkerIcon (markerNavigation p));
               PanTo (position (heap p r));
               AddListener (nextHandle p) (EnterClick r)]
  | None => []
  end.

Definition deselectEffects (p : Page) (c : Z) (listener : option Handle)
                           (m : option Ref) : list Effect :=
  match m with
  | Some r => SetIcon r (restoreIconAt (markerNavigation p) c)
              :: match listener with
                 | Some h => [RemoveListener h]
                 | None => []
                 end
  | None => []
  end.

(** A marker is shown as selected when it carries the selected icon. *)
Definition isSelected (p : Page) (r : Ref) : bool :=
  bool_decide (icon (heap p r) = selectedMarkerIcon (markerNavigation p)).

(** The markers of the stored array that are shown as selected, by index. *)
Definition selectedIndices (p : Page) : list nat :=
  List.filter (fun i => match markers (markerNavigation p) !! i with
                        | Some r => isSelected p r
                        | None => false
                        end)
              (seq 0 (length (markers (markerNavigation p)))).

(** The live Enter listeners, with the marker each one activates. *)
Definition enterListeners (p : Page) : list (Handle * Ref) :=
  omap (fun hl => match snd hl with
                  | EnterClick r => Some (fst hl, r)
                  | TabNav _ => None
                  end)
       (keydownListeners p).

(** How often a click was triggered on [r]. *)
Definition clicks (r : Ref) (p : Page) : nat :=
  length (List.filter (fun x => bool_decide (x = TriggerClick r)) (effects p)).

(** The live Enter listeners after each call of a log, oldest call first. *)
Fixpoint replayEnter (live : list Handle) (effs : list Effect)
  : list (list Handle) :=
  match effs with
  | [] => []
  | AddListener h (EnterClick _) :: effs' =>
      (live ++ [h]) :: replayEnter (live ++ [h]) effs'
  | RemoveListener h :: effs' =>
      List.filter (fun h' => negb (Nat.eqb h' h)) live
      :: replayEnter (List.filter (fun h' => negb (Nat.eqb h' h)) live) effs'
  | _ :: effs' => live :: replayEnter live effs'
  end.

(** The largest number of Enter listeners that were live at one time. *)
Definition peakEnterListeners (effs : list Effect) : nat :=
  list_max (map (@length Handle) (replayEnter [] effs)).

(** The icons [keyNavInit] stores, lines 49-56. *)
Definition selectedIconOf (icons : option Icons) : Icon :=
  match icons with
  | Some ic => if truthy (selected ic) then selected ic else None
  | None => None
  end.

Definition deselectedIconOf (icons : option Icons) : Icon :=
  match icons with
  | Some ic => if truthy (deselected ic) then deselected ic else None
  | None => None
  end.

(** The per-marker icons [keyNavInit] stores, lines 44 and 58-61. *)
Definition markerIconsOf (h : Ref -> Marker) (markers : list Ref)
                         (flag : bool) : list Icon :=
  if flag then map (fun r => icon (h r)) markers else [].

(** The cursor after a Tab in the container, and whether that Tab leaves
    the container, for a marker list of length [n]. *)
Definition stepCursor (n c : Z) (shift : bool) : Z :=
  if shift
  then (if c - 1 <=? -1 then -1 else c - 1)
  else (if n <=? c + 1 then n else c + 1).

Definition exits (n c : Z) (shift : bool) : bool :=
  if shift then c - 1 <=? -1 else n <=? c + 1.

(** ** Invariants *)

(** The document's key-down listeners are the Tab observer, attached
    first under handle 0 with the array [ms0] in its closure, followed by
    Enter listeners only. *)
Definition wired (ms0 : list Ref) (ls : list (Handle * Listener)) : Prop :=
  exists es, ls = (0%nat, TabNav ms0) :: es
    /\ Forall (fun hl => (0 < fst hl)%nat
                         /\ exists r, snd hl = EnterClick r) es.

(** Holds of every page the host can reach after [keyNavInit]. *)
Record Wired (ms0 : list Ref) (p : Page) : Prop := {
  wired_listeners : wired ms0 (keydownListeners p);
  wired_next : (0 < nextHandle p)%nat;
  wired_previous : previousMarkerListener (markerNavigation p) <> Some 0%nat;
  wired_focusout : focusoutListeners p = 1%nat
}.

(** Holds as long as the host does not re-bind. *)
Record Ranged (ms0 : list Ref) (p : Page) : Prop := {
  ranged_markers : markers (markerNavigation p) = ms0;
  ranged_cursor : -1 <= cursor p <= Z.of_nat (length ms0)
}.

(** Holds as long as the host does not re-bind, for distinct markers [ms]
    none of which carries the selected icon [sel] unless selected. *)
Record Inv (ms : list Ref) (sel de : Icon) (mi : list Icon) (p : Page)
  : Prop := {
  inv_markers : markers (markerNavigation p) = ms;
  inv_sel : selectedMarkerIcon (markerNavigation p) = sel;
  inv_de : deselectedMarkerIcon (markerNavigation p) = de;
  inv_mi : markerIcons (markerNavigation p) = mi;
  inv_focusout : focusoutListeners p = 1%nat;
  inv_range : -1 <= cursor p <= Z.of_nat (length ms);
  inv_icons : forall (i : nat) (r : Ref), ms !! i = Some r ->
    (icon (heap p r) = sel <-> Z.of_nat i = cursor p);
  inv_listeners : exists h0 : Handle, (h0 < nextHandle p)%nat /\
    match js_index ms (cursor p) with
    | Some r => exists h : Handle,
        keydownListeners p = [(h0, TabNav ms); (h, EnterClick r)]
        /\ previousMarkerListener (markerNavigation p) = Some h
        /\ (h < nextHandle p)%nat /\ h <> h0
        /\ activeIsMapDiv p = true
    | None => keydownListeners p = [(h0, TabNav ms)]
    end
}.

(** Holds as long as the host does not re-bind, whatever the markers and
    the icons are: the Tab observer is attached, and with it the Enter
    listener of the marker at the cursor when there is one, which is then
    the stored one, and no other. *)
Record Listening (ms : list Ref) (p : Page) : Prop := {
  listening_markers : markers (markerNavigation p) = ms;
  listening_focusout : focusoutListeners p = 1%nat;
  listening_range : -1 <= cursor p <= Z.of_nat (length ms);
  listening_listeners : exists h0 : Handle, (h0 < nextHandle p)%nat /\
    match js_index ms (cursor p) with
    | Some r => exists h : Handle,
        keydownListeners p = [(h0, TabNav ms); (h, EnterClick r)]
        /\ previousMarkerListener (markerNavigation p) = Some h
        /\ (h < nextHandle p)%nat /\ h <> h0
        /\ activeIsMapDiv p = true
    | None => keydownListeners p = [(h0, TabNav ms)]
    end
}.

(** ** Further observations and invariants *)

(** The page [p] with the calls [effs] added to its log. *)
Definition addEffects (effs : list Effect) (p : Page) : Page :=
  {| markerNavigation := markerNavigation p; heap := heap p;
     mapCenter := mapCenter p; keydownListeners := keydownListeners p;
     focusoutListeners := focusoutListeners p;
     nextHandle := nextHandle p; activeIsMapDiv := activeIsMapDiv p;
     defaultPrevented := defaultPrevented p;
     effects := effects p ++ effs |}.

(** The clicks the live Enter listeners trigger when they fire: one for
    each listener, oldest first. *)
Definition enterClicks (p : Page) : list Effect :=
  map (fun hr : Handle * Ref => TriggerClick (snd hr)) (enterListeners p).

(** Every handle in [ls] was handed out before the counter reached [n]. *)
Definition fresh (n : Handle) (ls : list (Handle * Listener)) : Prop :=
  Forall (fun hl : Handle * Listener => (fst hl < n)%nat) ls.

Definition Fresh (p : Page) : Prop := fresh (nextHandle p) (keydownListeners p).

(** The listener [l] is attached under the handle [h], and the controller
    does not hold that handle. *)
Record Kept (h : Handle) (l : Listener) (p : Page) : Prop := {
  kept_attached : (h, l) ∈ keydownListeners p;
  kept_previous : previousMarkerListener (markerNavigation p) <> Some h;
  kept_next : (h < nextHandle p)%nat
}.

(** As long as the host does not re-bind: the markers outside the list
    [ms] are as [init], the store [keyNavInit] found, has them, no marker
    has moved, and the map is centred on the marker at the cursor. *)
Record Tended (ms : list Ref) (init : Ref -> Marker) (p : Page) : Prop := {
  tended_markers : markers (markerNavigation p) = ms;
  tended_others : forall r, r ∉ ms -> heap p r = init r;
  tended_position : forall r, position (heap p r) = position (init r);
  tended_center : forall r, js_index ms (cursor p) = Some r ->
    mapCenter p = Some (position (init r))
}.

(** Without per-marker icons, every icon the controller has set is the
    selected icon [sel] or the deselected icon [de]. *)
Record Plain (sel de : Icon) (p : Page) : Prop := {
  plain_sel : selectedMarkerIcon (markerNavigation p) = sel;
  plain_de : deselectedMarkerIcon (markerNavigation p) = de;
  plain_mi : markerIcons (markerNavigation p) = [];
  plain_effects : Forall (fun x => forall r i, x = SetIcon r i ->
                                     i = sel \/ i = de) (effects p)
}.

(** A marker of the list that is not at the cursor carries the icon it
    had in [init], or the icon deselection restores at its index. *)
Record Shown (ms : list Ref) (init : Ref -> Marker) (p : Page) : Prop := {
  shown_icon : forall (i : nat) (r : Ref), ms !! i = Some r ->
    Z.of_nat i <> cursor p ->
    icon (heap p r) = icon (init r)
    \/ icon (heap p r) = restoreIconAt (markerNavigation p) (Z.of_nat i)
}.

(** In distinct-icon mode, as long as the host does not re-bind: the
    per-marker icons are those of [init], the store [keyNavInit] found,
    and every marker other than the one at the cursor is as in [init]. *)
Record Restored (ms : list Ref) (init : Ref -> Marker) (p : Page) : Prop := {
  restored_icons :
    markerIcons (markerNavigation p) = map (fun r => icon (init r)) ms;
  restored_position : forall r, position (heap p r) = position (init r);
  restored_heap : forall r, js_index ms (cursor p) <> Some r -> heap p r = init r
}.

(** ** A page to run the controller on

    Three markers with the icon "pin", the selected icon "sel" and the
    deselected icon "desel". *)
Definition pins : Ref -> Marker :=
  fun r => {| icon := Some "pin";
              position := {| lat := Z.of_nat r; lng := 0 |} |}.

Definition demoIcons : option Icons :=
  Some {| selected := Some "sel"; deselected := Some "desel" |}.

Definition demoPage : Page := initPage pins [0; 1; 2]%nat demoIcons false.

(** * Proofs *)

(** ** Array indexing *)

Lemma js_index_Some {A} (a : list A) (i : Z) (x : A) :
  js_index a i = Some x <-> 0 <= i /\ a !! Z.to_nat i = Some x.
Proof.
  unfold js_index. destruct (Z.ltb_spec i 0); split; intros; try easy; try lia.
Qed.

Lemma js_index_None {A} (a : list A) (i : Z) :
  js_index a i = None <-> i < 0 \/ Z.of_nat (length a) <= i.
Proof.
  unfold js_index. destruct (Z.ltb_spec i 0).
  - split; auto.
  - rewrite lookup_ge_None. split; intros; [right|]; lia.
Qed.

Lemma js_index_of_nat {A} (a : list A) (i : nat) :
  js_index a (Z.of_nat i) = a !! i.
Proof.
  unfold js_index. destruct (Z.ltb_spec (Z.of_nat i) 0); [lia|].
  by rewrite Nat2Z.id.
Qed.

Lemma js_index_nil {A} (i : Z) : js_index (@nil A) i = None.
Proof. unfold js_index. destruct (i <? 0); [done|]. apply lookup_nil. Qed.

Lemma js_index_lt {A} (a : list A) (i : Z) (x : A) :
  js_index a i = Some x -> 0 <= i < Z.of_nat (length a).
Proof.
  intros H. apply js_index_Some in H as [H0 H]. apply lookup_lt_Some in H. lia.
Qed.

Lemma length_zero_nil {A} (a : list A) : Nat.eqb (length a) 0 = true -> a = [].
Proof. destruct a; [done|discriminate]. Qed.

Lemma js_index_empty {A} (a : list A) (i : Z) :
  Nat.eqb (length a) 0 = true -> js_index a i = None.
Proof. intros H. apply length_zero_nil in H. subst. apply js_index_nil. Qed.

(** ** Keys, listener lists, the marker store *)

Lemma isTab_not_isEnter e : isTab e = true -> isEnter e = false.
Proof.
  unfold isTab, isEnter. intros H. apply String.eqb_eq in H. by rewrite H.
Qed.

Lemma detach_second h a x y :
  a <> h -> detach h [(a, x); (h, y)] = [(a, x)].
Proof.
  intros H. unfold detach. cbn [List.filter fst]. rewrite Nat.eqb_refl.
  destruct (Nat.eqb_spec a h); [congruence|done].
Qed.

Lemma detach_middle h a b x y z :
  a <> h -> b <> h -> detach h [(a, x); (h, y); (b, z)] = [(a, x); (b, z)].
Proof.
  intros H1 H2. unfold detach. cbn [List.filter fst]. rewrite Nat.eqb_refl.
  destruct (Nat.eqb_spec a h); [congruence|].
  destruct (Nat.eqb_spec b h); [congruence|done].
Qed.

Lemma icon_heapSetIcon r i h r' :
  icon (heapSetIcon r i h r') = if Nat.eqb r' r then i else icon (h r').
Proof. unfold heapSetIcon. by destruct (Nat.eqb r' r). Qed.

Lemma position_heapSetIcon r i h r' :
  position (heapSetIcon r i h r') = position (h r').
Proof.
  unfold heapSetIcon. destruct (Nat.eqb_spec r' r); [by subst|done].
Qed.

(** ** Running the monad *)

Lemma exec_bind {A} (m : M A) (k : M unit) p :
  exec (m ;; k) p = exec k (exec m p).
Proof. unfold exec, bind. by destruct (m p). Qed.

Lemma exec_run_cons ev evs p :
  exec (run (ev :: evs)) p = exec (run evs) (exec (browser ev) p).
Proof. apply exec_bind. Qed.

Lemma exec_run_app evs1 evs2 p :
  exec (run (evs1 ++ evs2)) p = exec (run evs2) (exec (run evs1) p).
Proof.
  revert p. induction evs1 as [|ev evs1 IH]; intros p; [done|].
  cbn [app]. by rewrite !exec_run_cons, IH.
Qed.

Lemma exec_runHost_cons a acts p :
  exec (runHost (a :: acts)) p = exec (runHost acts) (exec (host a) p).
Proof. apply exec_bind. Qed.

Lemma exec_keydown e p :
  exec (keydown e) p = exec (defaultAction e) (exec (dispatch e) p).
Proof. apply exec_bind. Qed.

(** Symbolic execution: [exec_step] runs the program on a page given by
    its fields until a test it cannot decide, [case_step] decides that
    test by cases, and [absurd_case] drops the cases that cannot arise. *)

Ltac destruct_page p :=
  let n := fresh "n" in
  destruct p as [n hp mc kl fl nh act dp eff];
  destruct n as [ms' c mi' sel' de' prev].

Ltac exec_step :=
  cbv beta iota zeta delta
    [exec bind ret when getNav modifyNav activeElementIsMapDiv preventDefault
     setIcon getPosition panTo addDomListener remove trigger
     addFocusoutListener setActive newEvent focusout keydown dispatch
     defaultAction browser host
     getKeydownListeners getFocusoutListeners getDefaultPrevented isAttached
     runListener dispatchKeydown repeatM focusoutListener tabNavListener
     __iterateMarkers __deselectMarker __selectMarker
     __addClickMarkerViaEnterKey enterListener __addTabNavToMapMarkers
     keyNavInit updateMarkerCount __getMarkerIconsFromMarkers
     withNav withMarkers withCurrentMarker withMarkerIcons
     withSelectedMarkerIcon withDeselectedMarkerIcon
     withPreviousMarkerListener
     markerNavigation heap mapCenter keydownListeners focusoutListeners
     nextHandle activeIsMapDiv defaultPrevented effects
     markers currentMarker markerIcons selectedMarkerIcon
     deselectedMarkerIcon previousMarkerListener
     selected deselected cursor attached existsb fst snd andb orb negb];
  cbn [app].

Ltac js_facts :=
  repeat match goal with
  | H : js_index ?l ?i = Some ?x |- _ =>
      lazymatch goal with
      | _ : 0 <= i < Z.of_nat (length l) |- _ => fail
      | _ => pose proof (js_index_lt l i x H)
      end
  | H : js_index ?l ?i = None |- _ =>
      lazymatch goal with
      | _ : i < 0 \/ Z.of_nat (length l) <= i |- _ => fail
      | _ => pose proof (proj1 (js_index_None l i) H)
      end
  | H : Nat.eqb (length ?l) 0 = true |- _ => apply Nat.eqb_eq in H
  | H : Nat.eqb (length ?l) 0 = false |- _ => apply Nat.eqb_neq in H
  end.

Ltac absurd_case :=
  solve [exfalso; congruence | exfalso; js_facts; lia].

Ltac case_step :=
  match goal with
  | H : js_index ?l ?i = _ |- context [js_index ?l ?i] => rewrite H
  | H : isTab ?e = _ |- context [isTab ?e] => rewrite H
  | H : isEnter ?e = _ |- context [isEnter ?e] => rewrite H
  | H : shiftKey ?e = _ |- context [shiftKey ?e] => rewrite H
  | H : Nat.eqb ?a ?b = _ |- context [Nat.eqb ?a ?b] => rewrite H
  | H : Nat.eqb (length ?l) 0 = true |- context [js_index ?l ?i] =>
      rewrite (js_index_empty l i H)
  | |- context [detach ?h [(?a, ?x); (?h, ?y)]] =>
      rewrite (detach_second h a x y) by congruence
  | |- context [detach ?h [(?a, ?x); (?h, ?y); (?b, ?z)]] =>
      rewrite (detach_middle h a b x y z) by (congruence || lia)
  | |- context [Nat.eqb ?a ?a] => rewrite (Nat.eqb_refl a)
  | |- context [match js_index ?l ?i with Some _ => _ | None => _ end] =>
      destruct (js_index l i) eqn:?
  | |- context [Nat.eqb (length ?l) 0] =>
      destruct (Nat.eqb (length l) 0) eqn:?
  | |- context [Z.leb ?a ?b] => destruct (Z.leb_spec a b)
  | |- context [Nat.eqb ?a ?b] => destruct (Nat.eqb_spec a b)
  | |- context [isTab ?e] => destruct (isTab e) eqn:?
  | |- context [isEnter ?e] => destruct (isEnter e) eqn:?
  | |- context [shiftKey ?e] => destruct (shiftKey e) eqn:?
  | |- context [truthy ?i] => destruct (truthy i) eqn:?
  | |- context [if ?b then _ else _] => is_var b; destruct b
  | |- context [match ?o with Some _ => _ | None => _ end] =>
      is_var o; destruct o
  end.

Ltac crunch := exec_step; repeat (case_step; try absurd_case; exec_step).

(** ** The page after initialization *)

Lemma initPage_eq hp ms icons flag :
  initPage hp ms icons flag
  = {| markerNavigation :=
         {| markers := ms; currentMarker := -1;
            markerIcons := markerIconsOf hp ms flag;
            selectedMarkerIcon := selectedIconOf icons;
            deselectedMarkerIcon := deselectedIconOf icons;
            previousMarkerListener := None |};
       heap := hp; mapCenter := None;
       keydownListeners := [(0%nat, TabNav ms)];
       focusoutListeners := 1; nextHandle := 1%nat;
       activeIsMapDiv := false; defaultPrevented := false;
       effects := [AddListener 0 (TabNav ms)] |}.
Proof.
  unfold initPage, blankPage, selectedIconOf, deselectedIconOf, markerIconsOf.
  destruct icons as [[s d]|]; destruct flag; crunch; reflexivity.
Qed.

(** ** The listeners stay wired *)

Section Wiring.
Variable ms0 : list Ref.

Lemma wired_add ls h r :
  (0 < h)%nat -> wired ms0 ls -> wired ms0 (ls ++ [(h, EnterClick r)]).
Proof.
  intros Hh (es & -> & Hes). exists (es ++ [(h, EnterClick r)]). split; [done|].
  apply Forall_app. split; [done|]. apply Forall_singleton. eauto.
Qed.

Lemma wired_detach ls h :
  h <> 0%nat -> wired ms0 ls -> wired ms0 (detach h ls).
Proof.
  intros Hh (es & -> & Hes). exists (detach h es). split.
  - unfold detach. cbn [List.filter fst].
    destruct (Nat.eqb_spec 0 h); [congruence|done].
  - unfold detach. induction Hes as [|hl es Hhl Hes IH]; [constructor|].
    cbn [List.filter]. destruct (negb _); [constructor|]; done.
Qed.

Ltac solve_wired :=
  repeat first [ assumption | apply wired_add; [lia|]
               | apply wired_detach; [congruence|] ].

Ltac open_wired p :=
  intros [W1 W2 W3 W4]; destruct_page p; simpl in *; subst.

Ltac solve_Wired :=
  split; cbn [markerNavigation keydownListeners nextHandle focusoutListeners
              previousMarkerListener];
  [ solve_wired | lia | congruence || (intros [=]; lia) | reflexivity ].

Lemma Wired_tabNavListener ms e p :
  Wired ms0 p -> Wired ms0 (exec (tabNavListener ms e) p).
Proof. open_wired p. crunch; solve_Wired. Qed.

Lemma Wired_enterListener r e p :
  Wired ms0 p -> Wired ms0 (exec (enterListener r e) p).
Proof. open_wired p. crunch; solve_Wired. Qed.

Lemma Wired_focusout p : Wired ms0 p -> Wired ms0 (exec focusout p).
Proof. open_wired p. crunch; solve_Wired. Qed.

Lemma Wired_setActive b p : Wired ms0 p -> Wired ms0 (exec (setActive b) p).
Proof. open_wired p. crunch; solve_Wired. Qed.

Lemma Wired_newEvent p : Wired ms0 p -> Wired ms0 (exec newEvent p).
Proof. open_wired p. crunch; solve_Wired. Qed.

Lemma Wired_updateMarkerCount ms p :
  Wired ms0 p -> Wired ms0 (exec (updateMarkerCount ms) p).
Proof. open_wired p. crunch; solve_Wired. Qed.

Lemma Wired_dispatchKeydown ls e p :
  Wired ms0 p -> Wired ms0 (exec (dispatchKeydown ls e) p).
Proof.
  revert p. induction ls as [|[h l] ls IH]; intros p W; [done|].
  change (exec (dispatchKeydown ((h, l) :: ls) e) p)
    with (exec (when (attached h (keydownListeners p)) (runListener l e) ;;
                dispatchKeydown ls e) p).
  rewrite exec_bind. apply IH. unfold when.
  destruct (attached h (keydownListeners p)); [|done].
  destruct l; [apply Wired_tabNavListener|apply Wired_enterListener]; done.
Qed.

Lemma exec_dispatch e p :
  exec (dispatch e) p
  = exec (dispatchKeydown (keydownListeners p) e) (exec newEvent p).
Proof. reflexivity. Qed.

Lemma Wired_keydown e p : Wired ms0 p -> Wired ms0 (exec (keydown e) p).
Proof.
  intros W. rewrite exec_keydown.
  assert (Wired ms0 (exec (dispatch e) p)) as W'.
  { rewrite exec_dispatch. by apply Wired_dispatchKeydown, Wired_newEvent. }
  revert W'. generalize (exec (dispatch e) p). clear. intros p W.
  unfold defaultAction, exec, bind, getDefaultPrevented,
    activeElementIsMapDiv, when.
  destruct (isTab e && negb (defaultPrevented p) && activeIsMapDiv p);
    [by apply Wired_focusout|done].
Qed.

Lemma Wired_browser ev p : Wired ms0 p -> Wired ms0 (exec (browser ev) p).
Proof.
  destruct ev; [apply Wired_keydown|apply Wired_setActive|apply Wired_focusout].
Qed.

Lemma Wired_host a p : Wired ms0 p -> Wired ms0 (exec (host a) p).
Proof. destruct a; [apply Wired_browser|apply Wired_updateMarkerCount]. Qed.

Lemma Wired_runHost acts p :
  Wired ms0 p -> Wired ms0 (exec (runHost acts) p).
Proof.
  revert p. induction acts as [|a acts IH]; intros p W; [done|].
  rewrite exec_runHost_cons. by apply IH, Wired_host.
Qed.

Lemma Wired_run evs p : Wired ms0 p -> Wired ms0 (exec (run evs) p).
Proof.
  revert p. induction evs as [|ev evs IH]; intros p W; [done|].
  rewrite exec_run_cons. by apply IH, Wired_browser.
Qed.

Lemma Wired_initPage hp icons flag :
  Wired ms0 (initPage hp ms0 icons flag).
Proof.
  rewrite initPage_eq.
  split; cbn; [exists []; by split|lia|congruence|reflexivity].
Qed.

(** On a Tab the Enter listeners do nothing, so the dispatch is the run
    of the Tab observer. *)
Lemma dispatchKeydown_enters es e p :
  Forall (fun hl : Handle * Listener =>
            (0 < fst hl)%nat /\ exists r, snd hl = EnterClick r) es ->
  isEnter e = false ->
  dispatchKeydown es e p = (tt, p).
Proof.
  intros Hes HE. revert p. induction Hes as [|[h l] es (_ & r & Hl) _ IH];
    intros p; [done|].
  cbn [snd] in Hl. subst l. cbn [dispatchKeydown runListener].
  unfold bind at 1 2. unfold isAttached, when, enterListener, bind,
    activeElementIsMapDiv.
  rewrite HE. destruct (attached h (keydownListeners p)); [|apply IH].
  destruct (activeIsMapDiv p); apply IH.
Qed.

Lemma dispatch_tab e p :
  Wired ms0 p -> isTab e = true ->
  exec (dispatch e) p = exec (tabNavListener ms0 e) (exec newEvent p).
Proof.
  intros [(es & Hkl & Hes) _ _ _] HT. rewrite exec_dispatch, Hkl.
  change (exec (dispatchKeydown ((0%nat, TabNav ms0) :: es) e) (exec newEvent p))
    with (exec (when (attached 0 (keydownListeners p)) (tabNavListener ms0 e) ;;
                dispatchKeydown es e) (exec newEvent p)).
  rewrite exec_bind, Hkl. unfold exec at 1.
  by rewrite (dispatchKeydown_enters _ _ _ Hes)
    by (by apply isTab_not_isEnter).
Qed.
End Wiring.

(** ** The Tab observer *)

Lemma tabNavListener_other ms e p :
  isTab e = false -> exec (tabNavListener ms e) p = p.
Proof. intros HT. destruct_page p. by crunch. Qed.

Lemma tabNavListener_outside ms e p :
  isTab e = true -> activeIsMapDiv p = false ->
  exec (tabNavListener ms e) p
  = withNav (withCurrentMarker
               (if shiftKey e then Z.of_nat (length ms) else -1)
               (markerNavigation p)) p.
Proof. intros HT HA. destruct_page p. simpl in HA. subst. by crunch. Qed.

Lemma tabNavListener_inside ms e p :
  isTab e = true -> activeIsMapDiv p = true ->
  let n0 := Z.of_nat (length ms) in
  let c1 := guardedCursor (markerNavigation p) + stepOf (shiftKey e) in
  let leaves := (n0 <=? c1) && negb (shiftKey e)
                || (c1 <=? -1) && shiftKey e in
  let p' := exec (tabNavListener ms e) p in
  cursor p' = (if (n0 <=? c1) && negb (shiftKey e) then n0
               else if (c1 <=? -1) && shiftKey e then -1 else c1)
  /\ defaultPrevented p' = (if leaves then defaultPrevented p else true)
  /\ activeIsMapDiv p' = true
  /\ markers (markerNavigation p') = markers (markerNavigation p)
  /\ effects p'
     = effects (exec (__iterateMarkers
                        (previousMarkerListener (markerNavigation p))
                        (shiftKey e)) p).
Proof.
  intros HT HA. destruct_page p. simpl in HA. subst.
  unfold guardedCursor, stepOf. cbn [markerNavigation markers currentMarker
    defaultPrevented previousMarkerListener].
  destruct (shiftKey e) eqn:ES; destruct (Nat.eqb (length ms') 0) eqn:EL;
    crunch; cbn [andb orb negb];
    repeat match goal with
    | |- context [Z.leb ?a ?b] => destruct (Z.leb_spec a b); try lia
    end; cbn [andb orb negb]; done.
Qed.


(** ** The cursor stays in range *)

Section Range.
Variable ms0 : list Ref.

Ltac open_ranged p :=
  intros [R1 R2]; destruct_page p; unfold cursor in *; simpl in *; subst.

Ltac solve_Ranged :=
  split; unfold cursor; cbn [markerNavigation markers currentMarker];
  [reflexivity | js_facts; lia].

Lemma Ranged_tabNavListener e p :
  Ranged ms0 p -> Ranged ms0 (exec (tabNavListener ms0 e) p).
Proof. open_ranged p. crunch; solve_Ranged. Qed.

Lemma Ranged_enterListener r e p :
  Ranged ms0 p -> Ranged ms0 (exec (enterListener r e) p).
Proof. open_ranged p. crunch; solve_Ranged. Qed.

Lemma Ranged_focusout p :
  focusoutListeners p = 1%nat ->
  Ranged ms0 p -> Ranged ms0 (exec focusout p).
Proof. intros HF. revert HF. destruct_page p. simpl. intros -> [R1 R2].
  unfold cursor in *; simpl in *; subst. crunch; solve_Ranged. Qed.

Lemma Ranged_setActive b p :
  Ranged ms0 p -> Ranged ms0 (exec (setActive b) p).
Proof. open_ranged p. crunch; solve_Ranged. Qed.

Lemma Ranged_newEvent p : Ranged ms0 p -> Ranged ms0 (exec newEvent p).
Proof. open_ranged p. crunch; solve_Ranged. Qed.

Lemma Ranged_dispatchKeydown ls e p :
  Forall (fun hl : Handle * Listener =>
            snd hl = TabNav ms0 \/ exists r, snd hl = EnterClick r) ls ->
  Ranged ms0 p -> Ranged ms0 (exec (dispatchKeydown ls e) p).
Proof.
  intros Hls. revert p. induction Hls as [|[h l] ls Hl _ IH]; intros p R; [done|].
  change (exec (dispatchKeydown ((h, l) :: ls) e) p)
    with (exec (when (attached h (keydownListeners p)) (runListener l e) ;;
                dispatchKeydown ls e) p).
  rewrite exec_bind. apply IH. unfold when.
  destruct (attached h (keydownListeners p)); [|done].
  cbn [snd] in Hl. destruct Hl as [->|[r ->]];
    [apply Ranged_tabNavListener|apply Ranged_enterListener]; done.
Qed.

Lemma wired_listeners_known ls :
  wired ms0 ls ->
  Forall (fun hl : Handle * Listener =>
            snd hl = TabNav ms0 \/ exists r, snd hl = EnterClick r) ls.
Proof.
  intros (es & -> & Hes). constructor; [by left|].
  eapply Forall_impl; [exact Hes|]. intros hl [_ H]. by right.
Qed.

Lemma Ranged_keydown e p :
  Wired ms0 p -> Ranged ms0 p -> Ranged ms0 (exec (keydown e) p).
Proof.
  intros W R. pose proof (Wired_keydown ms0 e p W) as W'.
  rewrite exec_keydown in *.
  assert (Ranged ms0 (exec (dispatch e) p)) as R'.
  { rewrite exec_dispatch. apply Ranged_dispatchKeydown.
    - apply wired_listeners_known, W.
    - by apply Ranged_newEvent. }
  assert (focusoutListeners (exec (dispatch e) p) = 1%nat) as HF.
  { rewrite exec_dispatch.
    apply (wired_focusout ms0), Wired_dispatchKeydown, Wired_newEvent, W. }
  revert R' HF. generalize (exec (dispatch e) p). clear. intros p R HF.
  unfold defaultAction, exec, bind, getDefaultPrevented,
    activeElementIsMapDiv, when.
  destruct (isTab e && negb (defaultPrevented p) && activeIsMapDiv p);
    [by apply Ranged_focusout|done].
Qed.

Lemma Ranged_browser ev p :
  Wired ms0 p -> Ranged ms0 p -> Ranged ms0 (exec (browser ev) p).
Proof.
  intros W R. destruct ev;
    [by apply Ranged_keydown|by apply Ranged_setActive
    |apply Ranged_focusout; [apply (wired_focusout ms0), W|done]].
Qed.

Lemma Ranged_run evs p :
  Wired ms0 p -> Ranged ms0 p -> Ranged ms0 (exec (run evs) p).
Proof.
  revert p. induction evs as [|ev evs IH]; intros p W R; [done|].
  rewrite exec_run_cons.
  apply IH; [by apply Wired_browser|by apply Ranged_browser].
Qed.

Lemma Ranged_initPage hp icons flag : Ranged ms0 (initPage hp ms0 icons flag).
Proof. rewrite initPage_eq. split; unfold cursor; cbn; [done|lia]. Qed.
End Range.

(** ** One step of the iteration *)

Lemma iterateMarkers_run listener shift p :
  let nav := markerNavigation p in
  let c := guardedCursor nav in
  let cand := c + stepOf shift in
  let p' := exec (__iterateMarkers listener shift) p in
  effects p' = effects p
               ++ selectEffects p (js_index (markers nav) cand)
               ++ deselectEffects p c listener (js_index (markers nav) c)
  /\ cursor p' = cand
  /\ fst (__iterateMarkers listener shift p)
     = match js_index (markers nav) cand with
       | Some _ => Some (nextHandle p)
       | None => None
       end
  /\ (forall r, heap p' r
        = match js_index (markers nav) c with
          | Some ro => heapSetIcon ro (restoreIconAt nav c)
          | None => fun h => h
          end
            (match js_index (markers nav) cand with
             | Some rn => heapSetIcon rn (selectedMarkerIcon nav) (heap p)
             | None => heap p
             end) r)
  /\ keydownListeners p'
     = match js_index (markers nav) c, listener with
       | Some _, Some h => detach h
       | _, _ => fun ls => ls
       end
         (keydownListeners p
          ++ match js_index (markers nav) cand with
             | Some rn => [(nextHandle p, EnterClick rn)]
             | None => []
             end).
Proof.
  cbv zeta. destruct_page p.
  unfold guardedCursor, stepOf, selectEffects, deselectEffects.
  cbn [markerNavigation markers currentMarker effects heap nextHandle
       selectedMarkerIcon keydownListeners].
  destruct shift; destruct (Nat.eqb (length ms') 0) eqn:EL.
  all: destruct (js_index ms' (_ + _)) eqn:E1.
  all: try (rewrite (js_index_empty _ _ EL) in E1; discriminate).
  all: match goal with
       | |- context [js_index ?l ?c] =>
           lazymatch c with
           | _ + _ => fail
           | _ => destruct (js_index l c) eqn:E2
           end
       end.
  all: try (rewrite (js_index_empty _ _ EL) in E2; discriminate).
  all: destruct listener.
  all: crunch; rewrite ?position_heapSetIcon, <- ?app_assoc, ?app_nil_r;
       repeat split; done.
Qed.

(** ** One marker is selected, one Enter listener is live *)

Ltac open_inv p :=
  intros [H1 H2 H3 H4 H5 H6 H7 (h0 & Hh0 & H8)]; destruct_page p;
  unfold cursor in *; simpl in *; subst.

Section Invariant.
Variable ms : list Ref.
Variables sel de : Icon.
Variable mi : list Icon.
Hypothesis ms_distinct : NoDup ms.
Hypothesis restore_not_selected :
  forall (i : nat) (r : Ref), ms !! i = Some r ->
    (if Nat.eqb (length mi) 0 then de else mjoin (mi !! i)) <> sel.

Lemma restore_ne (n : Nav) (r : Ref) :
  markerIcons n = mi -> deselectedMarkerIcon n = de ->
  js_index ms (currentMarker n) = Some r ->
  restoreIcon n <> sel.
Proof.
  intros <- <- H. unfold restoreIcon.
  apply js_index_Some in H as [H0 H].
  rewrite <- (Z2Nat.id (currentMarker n) H0), js_index_of_nat. eauto.
Qed.

Lemma index_char (i : nat) (r : Ref) (z : Z) :
  ms !! i = Some r -> (Z.of_nat i = z <-> js_index ms z = Some r).
Proof.
  intros Hi. split.
  - intros <-. by rewrite js_index_of_nat.
  - intros H. apply js_index_Some in H as [H0 H].
    pose proof (NoDup_lookup _ _ _ _ ms_distinct H Hi). lia.
Qed.

Lemma js_index_inj (a b : Z) (r : Ref) :
  js_index ms a = Some r -> js_index ms b = Some r -> a = b.
Proof.
  intros Ha Hb. apply js_index_Some in Ha as [Ha0 Ha].
  apply (index_char _ _ b) in Ha. apply Ha in Hb. lia.
Qed.

Ltac rewrite_index :=
  repeat match goal with
  | H : js_index ?l ?i = _ |- context [js_index ?l ?i] => rewrite H
  | H : Nat.eqb (length ?l) 0 = true |- context [js_index ?l ?i] =>
      rewrite (js_index_empty l i H)
  | |- context [js_index ?l ?i] =>
      rewrite (proj2 (js_index_None l i)) by (js_facts; lia)
  end.

Ltac solve_icons H7 :=
  let i := fresh "i" in let r' := fresh "r'" in let Hi := fresh "Hi" in
  let X := fresh "X" in
  intros i r' Hi; rewrite ?icon_heapSetIcon;
  repeat match goal with
  | |- context [Nat.eqb r' ?x] => destruct (Nat.eqb_spec r' x); [subst r'|]
  end;
  rewrite ?(H7 i _ Hi); rewrite !(index_char i _ _ Hi); rewrite_index;
  (split; intros X; try congruence; try done; exfalso;
   first [ match type of X with
           | restoreIcon ?n = _ =>
               refine (restore_ne n _ eq_refl eq_refl _ X);
               cbn [currentMarker]; eassumption
           end
         | injection X as X; subst;
           match goal with
           | Ha : js_index ms ?a = Some ?r, Hb : js_index ms ?b = Some ?r |- _ =>
               lazymatch a with b => fail | _ =>
                 pose proof (js_index_inj a b r Ha Hb); lia end
           end ]).

Ltac solve_listeners h0 :=
  exists h0; split; [lia|]; rewrite_index;
  first [ reflexivity
        | eexists; repeat split; try reflexivity; (lia || congruence) ].

Ltac solve_inv H7 h0 :=
  split; unfold cursor;
  cbn [markerNavigation heap keydownListeners focusoutListeners nextHandle
       activeIsMapDiv markers currentMarker markerIcons selectedMarkerIcon
       deselectedMarkerIcon previousMarkerListener];
  [ reflexivity | reflexivity | reflexivity | reflexivity | reflexivity
  | js_facts; lia | solve_icons H7 | solve_listeners h0 ].

Lemma Inv_focusIn p : Inv ms sel de mi p -> Inv ms sel de mi (exec (setActive true) p).
Proof.
  open_inv p. destruct (js_index ms c) as [r|] eqn:E;
    [destruct H8 as (h & -> & -> & Hh & Hne & ->)|subst];
    crunch; solve_inv H7 h0.
Qed.

Lemma Inv_focusout p : Inv ms sel de mi p -> Inv ms sel de mi (exec focusout p).
Proof.
  open_inv p. destruct (js_index ms c) as [r|] eqn:E;
    [destruct H8 as (h & -> & -> & Hh & Hne & ->)|subst];
    crunch; solve_inv H7 h0.
Qed.

Lemma Inv_keydown e p : Inv ms sel de mi p -> Inv ms sel de mi (exec (keydown e) p).
Proof.
  open_inv p.
  destruct (isTab e) eqn:ET; [pose proof (isTab_not_isEnter _ ET) as EE|];
    destruct (shiftKey e) eqn:ES;
    (destruct (js_index ms c) as [r|] eqn:E;
     [destruct H8 as (h & -> & -> & Hh & Hne & ->)|subst]).
  all: crunch.
  all: solve_inv H7 h0.
Qed.

Lemma Inv_browser ev p : Inv ms sel de mi p -> Inv ms sel de mi (exec (browser ev) p).
Proof.
  destruct ev; [apply Inv_keydown|apply Inv_focusIn|apply Inv_focusout].
Qed.

Lemma Inv_run evs p : Inv ms sel de mi p -> Inv ms sel de mi (exec (run evs) p).
Proof.
  revert p. induction evs as [|ev evs IH]; intros p HI; [done|].
  rewrite exec_run_cons. by apply IH, Inv_browser.
Qed.
End Invariant.

(** ** Pages reached from [keyNavInit] *)

(** The icon configuration tells the selected marker apart: no marker
    starts with the selected icon, and deselecting never restores it. *)
Lemma restore_distinct hp ms icons flag :
  (forall r, r ∈ ms -> icon (hp r) <> selectedIconOf icons) ->
  (flag = false -> deselectedIconOf icons <> selectedIconOf icons) ->
  forall (i : nat) (r : Ref), ms !! i = Some r ->
    (if Nat.eqb (length (markerIconsOf hp ms flag))
                0
     then deselectedIconOf icons
     else mjoin ((markerIconsOf hp ms flag) !! i))
    <> selectedIconOf icons.
Proof.
  intros Hms Hde i r Hi. unfold markerIconsOf.
  destruct flag; [|exact (Hde eq_refl)].
  rewrite length_map. destruct (Nat.eqb_spec (length ms) 0) as [E|_].
  - apply lookup_lt_Some in Hi. lia.
  - change (map (fun r0 => icon (hp r0)) ms) with ((fun r0 => icon (hp r0)) <$> ms).
    rewrite list_lookup_fmap, Hi. cbn.
    apply Hms. by eapply list_elem_of_lookup_2.
Qed.

Lemma Inv_initPage hp ms icons flag :
  (forall r, r ∈ ms -> icon (hp r) <> selectedIconOf icons) ->
  Inv ms (selectedIconOf icons) (deselectedIconOf icons)
      (markerIconsOf hp ms flag)
      (initPage hp ms icons flag).
Proof.
  intros Hms. rewrite initPage_eq. split; unfold cursor; cbn; try done.
  - lia.
  - intros i r Hi. split; [|lia]. intros H. exfalso.
    eapply Hms; [|exact H]. by eapply list_elem_of_lookup_2.
  - exists 0%nat. split; [lia|done].
Qed.

Lemma Inv_reached hp ms icons flag evs :
  NoDup ms ->
  (forall r, r ∈ ms -> icon (hp r) <> selectedIconOf icons) ->
  (flag = false -> deselectedIconOf icons <> selectedIconOf icons) ->
  Inv ms (selectedIconOf icons) (deselectedIconOf icons)
      (markerIconsOf hp ms flag)
      (exec (run evs) (initPage hp ms icons flag)).
Proof.
  intros Hnd Hms Hde. apply Inv_run; [done| |by apply Inv_initPage].
  by apply restore_distinct.
Qed.

Lemma Wired_reached hp ms icons flag acts :
  Wired ms (exec (runHost acts) (initPage hp ms icons flag)).
Proof. apply Wired_runHost, Wired_initPage. Qed.

Lemma Wired_Ranged_reached hp ms icons flag evs :
  Wired ms (exec (run evs) (initPage hp ms icons flag))
  /\ Ranged ms (exec (run evs) (initPage hp ms icons flag)).
Proof.
  split.
  - apply Wired_run, Wired_initPage.
  - apply Ranged_run; [apply Wired_initPage|apply Ranged_initPage].
Qed.

(** ** Reading the selection off the invariant *)

Lemma filter_seq_point (f : nat -> bool) (k s n : nat) :
  (forall i, (s <= i < s + n)%nat -> (f i = true <-> i = k)) ->
  List.filter f (seq s n)
  = if bool_decide (s <= k < s + n)%nat then [k] else [].
Proof.
  revert s. induction n as [|n IH]; intros s H.
  - cbn. case_bool_decide; [lia|done].
  - cbn [seq List.filter]. rewrite IH by (intros i Hi; apply H; lia).
    destruct (f s) eqn:Hs.
    + apply H in Hs; [|lia]. subst.
      repeat case_bool_decide; try lia; done.
    + assert (s <> k) by (intros ->; rewrite (proj2 (H k ltac:(lia)) eq_refl) in Hs; done).
      repeat case_bool_decide; try lia; done.
Qed.

Lemma Inv_selectedIndices ms sel de mi p :
  Inv ms sel de mi p ->
  selectedIndices p
  = match js_index ms (cursor p) with
    | Some _ => [Z.to_nat (cursor p)]
    | None => []
    end.
Proof.
  intros [H1 H2 H3 H4 H5 H6 H7 _]. unfold selectedIndices. rewrite H1.
  set (k := if bool_decide (0 <= cursor p) then Z.to_nat (cursor p)
            else length ms).
  rewrite (filter_seq_point _ k).
  - subst k. destruct (js_index ms (cursor p)) eqn:E.
    + apply js_index_lt in E. repeat case_bool_decide; try lia; done.
    + apply js_index_None in E. repeat case_bool_decide; try lia; done.
  - intros i Hi. destruct (ms !! i) as [r|] eqn:Hr.
    + unfold isSelected. rewrite H2, bool_decide_eq_true, (H7 i r Hr).
      subst k. case_bool_decide; lia.
    + apply lookup_ge_None in Hr. lia.
Qed.

Lemma Inv_enterListeners ms sel de mi p :
  Inv ms sel de mi p ->
  match js_index ms (cursor p) with
  | Some r => exists h, enterListeners p = [(h, r)]
                        /\ previousMarkerListener (markerNavigation p) = Some h
  | None => enterListeners p = []
  end.
Proof.
  intros [_ _ _ _ _ _ _ (h0 & _ & H8)]. unfold enterListeners.
  destruct (js_index ms (cursor p)).
  - destruct H8 as (h & -> & -> & _). by exists h.
  - by rewrite H8.
Qed.

(** ** The default action of Tab *)

Lemma defaultAction_suppressed e p :
  defaultPrevented p = true -> exec (defaultAction e) p = p.
Proof.
  intros H. unfold defaultAction, exec, bind, getDefaultPrevented,
    activeElementIsMapDiv, when.
  rewrite H. by destruct (isTab e).
Qed.

Lemma defaultAction_outside e p :
  activeIsMapDiv p = false -> exec (defaultAction e) p = p.
Proof.
  intros H. unfold defaultAction, exec, bind, getDefaultPrevented,
    activeElementIsMapDiv, when.
  rewrite H. by rewrite andb_false_r.
Qed.

Lemma defaultAction_leaves e p :
  isTab e = true -> defaultPrevented p = false -> activeIsMapDiv p = true ->
  exec (defaultAction e) p = exec focusout p.
Proof.
  intros HT HP HA. unfold defaultAction, exec, bind, getDefaultPrevented,
    activeElementIsMapDiv, when.
  by rewrite HT, HP, HA.
Qed.

Lemma focusout_inactive p : activeIsMapDiv (exec focusout p) = false.
Proof.
  unfold focusout, exec, bind, getFocusoutListeners.
  by destruct (repeatM (focusoutListeners p) focusoutListener p).
Qed.

Lemma focusoutListener_cursor p : cursor (exec focusoutListener p) = -1.
Proof. destruct_page p. crunch; done. Qed.

Lemma focusout_cursor p :
  focusoutListeners p = 1%nat -> cursor (exec focusout p) = -1.
Proof. destruct_page p. simpl. intros ->. crunch; done. Qed.

(** A Tab key-down on a reached page, container focused. *)
Lemma dispatch_tab_inside ms0 shift p :
  Wired ms0 p -> Ranged ms0 p -> activeIsMapDiv p = true ->
  let n := Z.of_nat (length ms0) in
  let p' := exec (dispatch (tabKey shift)) p in
  cursor p' = stepCursor n (cursor p) shift
  /\ defaultPrevented p' = negb (exits n (cursor p) shift)
  /\ activeIsMapDiv p' = true.
Proof.
  intros W [R1 R2] HA. cbv zeta. rewrite (dispatch_tab ms0) by done.
  pose proof (tabNavListener_inside ms0 (tabKey shift) (exec newEvent p)
                eq_refl HA) as H.
  cbv zeta in H. destruct H as (Hc & Hd & Ha & _).
  rewrite Hc, Hd, Ha. clear Hc Hd Ha.
  change (markerNavigation (exec newEvent p)) with (markerNavigation p).
  change (defaultPrevented (exec newEvent p)) with false.
  unfold guardedCursor, stepCursor, exits, stepOf, cursor in *.
  rewrite R1. cbn [shiftKey tabKey].
  destruct shift; destruct (Nat.eqb_spec (length ms0) 0) as [E|E];
    cbn [andb orb negb];
    repeat match goal with
    | |- context [Z.leb ?a ?b] => destruct (Z.leb_spec a b); try lia
    end; cbn [andb orb negb]; repeat split; try done; lia.
Qed.

(** A Tab key-down on a reached page, focus elsewhere. *)
Lemma keydown_tab_outside ms0 shift p :
  Wired ms0 p -> activeIsMapDiv p = false ->
  exec (keydown (tabKey shift)) p
  = withNav (withCurrentMarker
               (if shift then Z.of_nat (length ms0) else -1)
               (markerNavigation p))
            (exec newEvent p).
Proof.
  intros W HA. rewrite exec_keydown, (dispatch_tab ms0) by done.
  rewrite tabNavListener_outside by done.
  by rewrite defaultAction_outside.
Qed.

(** ** Browser events keep the stored list *)

Lemma markers_tabNavListener ms e p :
  markers (markerNavigation (exec (tabNavListener ms e) p))
  = markers (markerNavigation p).
Proof. destruct_page p. crunch; reflexivity. Qed.

Lemma markers_enterListener r e p :
  markers (markerNavigation (exec (enterListener r e) p))
  = markers (markerNavigation p).
Proof. destruct_page p. crunch; reflexivity. Qed.

Lemma markers_focusoutListener p :
  markers (markerNavigation (exec focusoutListener p))
  = markers (markerNavigation p).
Proof. destruct_page p. crunch; reflexivity. Qed.

Lemma markers_repeatM n p :
  markers (markerNavigation (exec (repeatM n focusoutListener) p))
  = markers (markerNavigation p).
Proof.
  revert p. induction n as [|n IH]; intros p; [reflexivity|].
  cbn [repeatM]. rewrite exec_bind, IH. apply markers_focusoutListener.
Qed.

Lemma markers_focusout p :
  markers (markerNavigation (exec focusout p)) = markers (markerNavigation p).
Proof.
  change (exec focusout p)
    with (exec (repeatM (focusoutListeners p) focusoutListener ;;
                setActive false) p).
  rewrite exec_bind. apply markers_repeatM.
Qed.

Lemma markers_dispatchKeydown ls e p :
  markers (markerNavigation (exec (dispatchKeydown ls e) p))
  = markers (markerNavigation p).
Proof.
  revert p. induction ls as [|[h l] ls IH]; intros p; [reflexivity|].
  change (exec (dispatchKeydown ((h, l) :: ls) e) p)
    with (exec (when (attached h (keydownListeners p)) (runListener l e) ;;
                dispatchKeydown ls e) p).
  rewrite exec_bind, IH. unfold when.
  destruct (attached h (keydownListeners p)); [|reflexivity].
  destruct l; [apply markers_tabNavListener|apply markers_enterListener].
Qed.

Lemma markers_keydown e p :
  markers (markerNavigation (exec (keydown e) p)) = markers (markerNavigation p).
Proof.
  rewrite exec_keydown.
  assert (markers (markerNavigation (exec (dispatch e) p))
          = markers (markerNavigation p)) as <-.
  { rewrite exec_dispatch.
    apply (markers_dispatchKeydown _ _ (exec newEvent p)). }
  generalize (exec (dispatch e) p). clear. intros p.
  unfold defaultAction, exec, bind, getDefaultPrevented,
    activeElementIsMapDiv, when.
  destruct (isTab e && negb (defaultPrevented p) && activeIsMapDiv p);
    [apply markers_focusout|reflexivity].
Qed.

Lemma markers_run evs p :
  markers (markerNavigation (exec (run evs) p)) = markers (markerNavigation p).
Proof.
  revert p. induction evs as [|ev evs IH]; intros p; [reflexivity|].
  rewrite exec_run_cons, IH.
  destruct ev; [apply markers_keydown|reflexivity|apply markers_focusout].
Qed.

Lemma exec_runHost_app acts1 acts2 p :
  exec (runHost (acts1 ++ acts2)) p
  = exec (runHost acts2) (exec (runHost acts1) p).
Proof.
  revert p. induction acts1 as [|a acts1 IH]; intros p; [reflexivity|].
  cbn [app]. by rewrite !exec_runHost_cons, IH.
Qed.

Lemma exec_runHost_inputs evs p :
  exec (runHost (map Input evs)) p = exec (run evs) p.
Proof.
  revert p. induction evs as [|ev evs IH]; intros p; [reflexivity|].
  cbn [map]. by rewrite exec_runHost_cons, exec_run_cons, IH.
Qed.

(** ** Steps on reached pages *)


Lemma Inv_step_forward (ms : list Ref) (sel de : Icon) (mi : list Icon)
                       (p : Page) (r r' : Ref) :
  Inv ms sel de mi p ->
  js_index ms (cursor p) = Some r ->
  js_index ms (cursor p + 1) = Some r' ->
  let p' := exec (keydown (tabKey false)) p in
  exists h : Handle,
    enterListeners p = [(h, r)]
    /\ effects p'
       = effects p
         ++ [SetIcon r' (selectedMarkerIcon (markerNavigation p));
             PanTo (position (heap p r'));
             AddListener (nextHandle p) (EnterClick r');
             SetIcon r (restoreIconAt (markerNavigation p) (cursor p));
             RemoveListener h]
    /\ enterListeners p' = [(nextHandle p, r')].
Proof.
  revert p. intros p. open_inv p. intros E E'. rewrite E in H8.
  destruct H8 as (h & -> & -> & Hh & Hne & ->). exists h.
  assert (isTab (tabKey false) = true) as HT by reflexivity.
  assert (isEnter (tabKey false) = false) as HE by reflexivity.
  assert (shiftKey (tabKey false) = false) as HS by reflexivity.
  unfold enterListeners.
  crunch; rewrite ?position_heapSetIcon, <- ?app_assoc; repeat split;
    reflexivity.
Qed.

Lemma Inv_enter_click (ms : list Ref) (sel de : Icon) (mi : list Icon)
                      (p : Page) (r : Ref) :
  Inv ms sel de mi p ->
  js_index ms (cursor p) = Some r ->
  let p' := exec (keydown enterKey) p in
  effects p' = effects p ++ [TriggerClick r]
  /\ clicks r p' = S (clicks r p)
  /\ cursor p' = cursor p
  /\ keydownListeners p' = keydownListeners p.
Proof.
  revert p. intros p. open_inv p. intros E. rewrite E in H8.
  destruct H8 as (h & -> & -> & Hh & Hne & ->).
  assert (isTab enterKey = false) as HT by reflexivity.
  assert (isEnter enterKey = true) as HE by reflexivity.
  unfold clicks.
  crunch. split; [reflexivity|]. split; [|split; reflexivity].
  rewrite List.filter_app, length_app. cbn [List.filter length].
  rewrite bool_decide_eq_true_2 by reflexivity. cbn [length]. lia.
Qed.



Lemma Inv_focusout_deselects (ms : list Ref) (sel de : Icon) (mi : list Icon)
                             (p : Page) :
  Inv ms sel de mi p ->
  let p' := exec focusout p in
  previousMarkerListener (markerNavigation p')
  = previousMarkerListener (markerNavigation p)
  /\ match js_index ms (cursor p) with
     | Some r =>
         exists h, previousMarkerListener (markerNavigation p) = Some h
           /\ icon (heap p' r) = restoreIconAt (markerNavigation p) (cursor p)
           /\ effects p'
              = effects p
                ++ [SetIcon r (restoreIconAt (markerNavigation p) (cursor p));
                    RemoveListener h]
     | None => effects p' = effects p
     end.
Proof.
  revert p. intros p. open_inv p.
  destruct (js_index ms c) as [r|] eqn:E;
    [destruct H8 as (h & -> & -> & Hh & Hne & ->)|subst].
  - crunch. split; [reflexivity|]. exists h.
    rewrite icon_heapSetIcon, Nat.eqb_refl, <- app_assoc.
    repeat split; reflexivity.
  - crunch. split; reflexivity.
Qed.

(** ** The listeners, whatever the markers and the icons *)

Ltac open_listening p :=
  intros [H1 H5 H6 (h0 & Hh0 & H8)]; destruct_page p;
  unfold cursor in *; simpl in *; subst.

Section Listeners.
Variable ms : list Ref.

Ltac rewrite_index :=
  repeat match goal with
  | H : js_index ?l ?i = _ |- context [js_index ?l ?i] => rewrite H
  | H : Nat.eqb (length ?l) 0 = true |- context [js_index ?l ?i] =>
      rewrite (js_index_empty l i H)
  | |- context [js_index ?l ?i] =>
      rewrite (proj2 (js_index_None l i)) by (js_facts; lia)
  end.

Ltac solve_Listening h0 :=
  split; unfold cursor;
  cbn [markerNavigation keydownListeners focusoutListeners nextHandle
       activeIsMapDiv markers currentMarker previousMarkerListener];
  [ reflexivity | reflexivity | js_facts; lia
  | exists h0; split; [lia|]; rewrite_index;
    first [ reflexivity
          | eexists; repeat split; try reflexivity; (lia || congruence) ] ].

Lemma Listening_focusIn p :
  Listening ms p -> Listening ms (exec (setActive true) p).
Proof.
  open_listening p. destruct (js_index ms c) as [r|] eqn:E;
    [destruct H8 as (h & -> & -> & Hh & Hne & ->)|subst];
    crunch; solve_Listening h0.
Qed.

Lemma Listening_focusout p : Listening ms p -> Listening ms (exec focusout p).
Proof.
  open_listening p. destruct (js_index ms c) as [r|] eqn:E;
    [destruct H8 as (h & -> & -> & Hh & Hne & ->)|subst];
    crunch; solve_Listening h0.
Qed.

Lemma Listening_keydown e p :
  Listening ms p -> Listening ms (exec (keydown e) p).
Proof.
  open_listening p.
  destruct (isTab e) eqn:ET; [pose proof (isTab_not_isEnter _ ET) as EE|];
    destruct (shiftKey e) eqn:ES;
    (destruct (js_index ms c) as [r|] eqn:E;
     [destruct H8 as (h & -> & -> & Hh & Hne & ->)|subst]).
  all: crunch.
  all: solve_Listening h0.
Qed.

Lemma Listening_browser ev p :
  Listening ms p -> Listening ms (exec (browser ev) p).
Proof.
  destruct ev; [apply Listening_keydown|apply Listening_focusIn
               |apply Listening_focusout].
Qed.

Lemma Listening_run evs p : Listening ms p -> Listening ms (exec (run evs) p).
Proof.
  revert p. induction evs as [|ev evs IH]; intros p HL; [done|].
  rewrite exec_run_cons. by apply IH, Listening_browser.
Qed.
End Listeners.

Lemma Listening_reached hp ms icons flag evs :
  Listening ms (exec (run evs) (initPage hp ms icons flag)).
Proof.
  apply Listening_run. rewrite initPage_eq. split; unfold cursor; cbn.
  - reflexivity.
  - reflexivity.
  - lia.
  - exists 0%nat. split; [lia|reflexivity].
Qed.

Lemma Listening_enterListeners ms p :
  Listening ms p ->
  match js_index ms (cursor p) with
  | Some r => exists h, enterListeners p = [(h, r)]
                        /\ previousMarkerListener (markerNavigation p) = Some h
  | None => enterListeners p = []
  end.
Proof.
  intros [_ _ _ (h0 & _ & H8)]. unfold enterListeners.
  destruct (js_index ms (cursor p)).
  - destruct H8 as (h & -> & -> & _). by exists h.
  - by rewrite H8.
Qed.

Lemma Listening_step_forward (ms : list Ref) (p : Page) (r r' : Ref) :
  Listening ms p ->
  js_index ms (cursor p) = Some r ->
  js_index ms (cursor p + 1) = Some r' ->
  let p' := exec (keydown (tabKey false)) p in
  exists h : Handle,
    enterListeners p = [(h, r)]
    /\ effects p'
       = effects p
         ++ [SetIcon r' (selectedMarkerIcon (markerNavigation p));
             PanTo (position (heap p r'));
             AddListener (nextHandle p) (EnterClick r');
             SetIcon r (restoreIconAt (markerNavigation p) (cursor p));
             RemoveListener h]
    /\ enterListeners p' = [(nextHandle p, r')].
Proof.
  revert p. intros p. open_listening p. intros E E'. rewrite E in H8.
  destruct H8 as (h & -> & -> & Hh & Hne & ->). exists h.
  assert (isTab (tabKey false) = true) as HT by reflexivity.
  assert (isEnter (tabKey false) = false) as HE by reflexivity.
  assert (shiftKey (tabKey false) = false) as HS by reflexivity.
  unfold enterListeners.
  crunch; rewrite ?position_heapSetIcon, <- ?app_assoc; repeat split;
    reflexivity.
Qed.


Lemma Listening_focusout_deselects (ms : list Ref) (p : Page) :
  Listening ms p ->
  let p' := exec focusout p in
  previousMarkerListener (markerNavigation p')
  = previousMarkerListener (markerNavigation p)
  /\ match js_index ms (cursor p) with
     | Some r =>
         exists h, previousMarkerListener (markerNavigation p) = Some h
           /\ icon (heap p' r) = restoreIconAt (markerNavigation p) (cursor p)
           /\ effects p'
              = effects p
                ++ [SetIcon r (restoreIconAt (markerNavigation p) (cursor p));
                    RemoveListener h]
     | None => effects p' = effects p
     end.
Proof.
  revert p. intros p. open_listening p.
  destruct (js_index ms c) as [r|] eqn:E;
    [destruct H8 as (h & -> & -> & Hh & Hne & ->)|subst].
  - crunch. split; [reflexivity|]. exists h.
    rewrite icon_heapSetIcon, Nat.eqb_refl, <- app_assoc.
    repeat split; reflexivity.
  - crunch. split; reflexivity.
Qed.

(** ** Concrete runs *)

(** Three forward Tabs in the container reach the last marker. *)
Example forward_traversal :
  let p := exec (run [Tab; FocusIn; Tab; Tab; Tab]) demoPage in
  cursor p = 2 /\ selectedIndices p = [2%nat]
  /\ enterListeners p = [(3%nat, 2%nat)]
  /\ map (fun r => icon (heap p r)) [0; 1; 2]%nat
     = [Some "desel"; Some "desel"; Some "sel"]%string.
Proof. vm_compute. repeat split; reflexivity. Qed.

(** One more leaves the container: the Tab is not suppressed, the focus
    moves on and the focus-out handler resets the cursor. *)
Example forward_exit :
  let p := exec (run [Tab; FocusIn; Tab; Tab; Tab; Tab]) demoPage in
  cursor p = -1 /\ activeIsMapDiv p = false /\ defaultPrevented p = false
  /\ selectedIndices p = [] /\ enterListeners p = [].
Proof. vm_compute. repeat split; reflexivity. Qed.

(** Entering backward starts at the last marker. *)
Example backward_entry :
  let p := exec (run [ShiftTab; FocusIn; ShiftTab]) demoPage in
  cursor p = 2 /\ selectedIndices p = [2%nat].
Proof. vm_compute. repeat split; reflexivity. Qed.

(** A re-bind while a marker is selected clears the stored handle and
    leaves the listener attached, and it reads the selected icon as the
    marker's own: when the marker is selected again, two Enter listeners
    are live and one Enter triggers two clicks. *)
Example rebind_leaves_old_listener_attached :
  let p := exec (runHost [Input Tab; Input FocusIn; Input Tab;
                          Rebind [0%nat];
                          Input ShiftTab; Input FocusIn; Input Tab;
                          Input (KeyDown enterKey)])
                (initPage pins [0%nat] demoIcons false) in
  enterListeners p = [(1%nat, 0%nat); (2%nat, 0%nat)]
  /\ markerIcons (markerNavigation p) = [Some "sel"]%string
  /\ clicks 0 p = 2%nat.
Proof. vm_compute. repeat split; reflexivity. Qed.

(** * The claims *)

(** ** The selected marker *)

(** C1, as the code has it: as long as the host does not re-bind the
    marker list, after every key event (and every focus change) at most
    one marker of the list carries the selected icon; when the cursor is in
    [0, length) it is exactly the marker at the cursor, and when the
    cursor is a sentinel (-1 or length) it is none.  The markers are
    distinct objects, and the selected icon differs from the icons the
    markers carry otherwise: the ones they start with and the ones
    deselection gives them (the configured deselected icon, or in
    distinct-icon mode the icons they start with). *)
Theorem selection_follows_cursor hp ms icons flag evs :
  NoDup ms ->
  (forall r, r ∈ ms -> icon (hp r) <> selectedIconOf icons) ->
  (flag = false -> deselectedIconOf icons <> selectedIconOf icons) ->
  let p := exec (run evs) (initPage hp ms icons flag) in
  let n := Z.of_nat (length (markers (markerNavigation p))) in
  -1 <= cursor p <= n
  /\ (length (selectedIndices p) <= 1)%nat
  /\ (0 <= cursor p < n -> selectedIndices p = [Z.to_nat (cursor p)])
  /\ (cursor p = -1 \/ cursor p = n -> selectedIndices p = []).
Proof.
  intros Hnd Hms Hde. cbv zeta.
  pose proof (Inv_reached hp ms icons flag evs Hnd Hms Hde) as HI.
  rewrite (Inv_selectedIndices _ _ _ _ _ HI).
  rewrite (inv_markers _ _ _ _ _ HI).
  pose proof (inv_range _ _ _ _ _ HI) as HR.
  destruct (js_index ms _) eqn:E.
  - apply js_index_lt in E. repeat split; cbn [length]; (lia || reflexivity).
  - apply js_index_None in E. repeat split; cbn [length]; (lia || reflexivity).
Qed.

Lemma selection_follows_cursor_witness :
  let p := exec (run [Tab; FocusIn; Tab; Tab]) demoPage in
  cursor p = 1 /\ selectedIndices p = [1%nat].
Proof.
  cbv zeta. split; [vm_compute; reflexivity|].
  destruct (selection_follows_cursor pins [0; 1; 2]%nat demoIcons false
              [Tab; FocusIn; Tab; Tab]) as (_ & _ & H & _).
  - apply (bool_decide_unpack _). vm_compute. exact I.
  - intros r _. vm_compute. discriminate.
  - intros _. vm_compute. discriminate.
  - unfold demoPage. rewrite H; [reflexivity|]. clear. vm_compute.
    split; [discriminate|reflexivity].
Defined.

(** C1 as stated fails.  A re-bind while marker 0 is selected reads the
    selected icon as the marker's own and forgets its listener: after the
    next Tab markers 0 and 1 both carry the selected icon.  And with no
    icon configuration the selected icon is undefined, as is the icon
    deselection sets: after two steps, without any re-bind, markers 0 and
    1 both carry it. *)
Lemma two_markers_selected_after_rebind :
  let p := exec (runHost [Input Tab; Input FocusIn; Input Tab;
                          Rebind [0; 1; 2]%nat; Input Tab]) demoPage in
  let q := exec (run [Tab; FocusIn; Tab; Tab])
                (initPage pins [0; 1; 2]%nat None false) in
  cursor p = 1
  /\ selectedIndices p = [0; 1]%nat
  /\ ~ (length (selectedIndices p) <= 1)%nat
  /\ cursor q = 1
  /\ selectedIndices q = [0; 1]%nat.
Proof.
  cbv zeta.
  assert (selectedIndices
            (exec (runHost [Input Tab; Input FocusIn; Input Tab;
                            Rebind [0; 1; 2]%nat; Input Tab]) demoPage)
          = [0; 1]%nat) as -> by (vm_compute; reflexivity).
  split; [vm_compute; reflexivity|]. split; [reflexivity|].
  split; [cbn [length]; lia|].
  split; vm_compute; reflexivity.
Qed.

(** ** Tab in the container *)




(** ** The step *)

(** C3: [__iterateMarkers] first selects the marker at the candidate index
    cursor + direction (nothing happens when there is none), then
    deselects the marker at the cursor it started from, restoring the icon
    stored for that index when per-marker icons were captured and the
    shared deselected icon otherwise, and only then moves the cursor to
    the candidate.  The cursor is the one the step works with: for an
    empty marker list line 167 has set it to 0 first. *)
Theorem iterate_selects_then_deselects (listener : option Handle)
                                       (shift : bool) (p : Page) :
  let nav := markerNavigation p in
  let c := guardedCursor nav in
  let cand := c + stepOf shift in
  let p' := exec (__iterateMarkers listener shift) p in
  (markers nav <> [] -> c = cursor p)
  /\ effects p' = effects p
                  ++ selectEffects p (js_index (markers nav) cand)
                  ++ deselectEffects p c listener (js_index (markers nav) c)
  /\ cursor p' = cand
  /\ fst (__iterateMarkers listener shift p)
     = match js_index (markers nav) cand with
       | Some _ => Some (nextHandle p)
       | None => None
       end
  /\ (forall r, heap p' r
        = match js_index (markers nav) c with
          | Some ro => heapSetIcon ro (restoreIconAt nav c)
          | None => fun h => h
          end
            (match js_index (markers nav) cand with
             | Some rn => heapSetIcon rn (selectedMarkerIcon nav) (heap p)
             | None => heap p
             end) r).
Proof.
  cbv zeta. split.
  - unfold guardedCursor. destruct (markers (markerNavigation p)); done.
  - pose proof (iterateMarkers_run listener shift p) as H. cbv zeta in H.
    tauto.
Qed.

Lemma iterate_selects_then_deselects_witness :
  let p := exec (run [Tab; FocusIn; Tab]) demoPage in
  effects (exec (__iterateMarkers (Some 1%nat) false) p)
  = effects p ++ [SetIcon 1 (Some "sel");
                  PanTo {| lat := 1; lng := 0 |};
                  AddListener 2 (EnterClick 1);
                  SetIcon 0 (Some "desel");
                  RemoveListener 1]
  /\ cursor (exec (__iterateMarkers (Some 1%nat) false) p) = 1.
Proof.
  pose proof (iterate_selects_then_deselects (Some 1%nat) false
                (exec (run [Tab; FocusIn; Tab]) demoPage)) as H.
  cbv zeta in H. destruct H as (H0 & H1 & H2 & _).
  split; [rewrite H1|rewrite H2]; vm_compute; reflexivity.
Defined.

(** ** The Enter listener *)

(** C4, as the code has it: as long as the host does not re-bind, and
    whatever the markers and the icons are, between events at most one
    Enter listener is live, and one is live exactly when the cursor is in
    [0, length); it is the listener of the marker at the cursor, and its
    handle is the stored one.  When the selection moves from marker i to
    marker i+1, the step attaches the listener of marker i+1 first and
    detaches the listener of marker i right after, within the same
    key-down. *)
Theorem one_enter_listener_between_events hp ms icons flag evs :
  let p := exec (run evs) (initPage hp ms icons flag) in
  let n := Z.of_nat (length (markers (markerNavigation p))) in
  markers (markerNavigation p) = ms
  /\ (length (enterListeners p) <= 1)%nat
  /\ (enterListeners p <> [] <-> 0 <= cursor p < n)
  /\ (forall r : Ref, js_index ms (cursor p) = Some r ->
        exists h : Handle,
          enterListeners p = [(h, r)]
          /\ previousMarkerListener (markerNavigation p) = Some h)
  /\ (forall r r' : Ref,
        js_index ms (cursor p) = Some r ->
        js_index ms (cursor p + 1) = Some r' ->
        let p' := exec (keydown (tabKey false)) p in
        exists h : Handle,
          enterListeners p = [(h, r)]
          /\ effects p'
             = effects p
               ++ [SetIcon r' (selectedMarkerIcon (markerNavigation p));
                   PanTo (position (heap p r'));
                   AddListener (nextHandle p) (EnterClick r');
                   SetIcon r (restoreIconAt (markerNavigation p) (cursor p));
                   RemoveListener h]
          /\ enterListeners p' = [(nextHandle p, r')]).
Proof.
  cbv zeta.
  pose proof (Listening_reached hp ms icons flag evs) as HI.
  set (p := exec (run evs) (initPage hp ms icons flag)) in *.
  pose proof (Listening_enterListeners _ _ HI) as HL.
  pose proof (listening_range _ _ HI) as HR.
  rewrite (listening_markers _ _ HI).
  split; [reflexivity|]. split; [|split; [|split]].
  - destruct (js_index ms (cursor p)); [destruct HL as (h & -> & _)|rewrite HL];
      cbn; lia.
  - destruct (js_index ms (cursor p)) eqn:E.
    + destruct HL as (h & -> & _). apply js_index_lt in E.
      split; [lia|discriminate].
    + rewrite HL. apply js_index_None in E. split; [congruence|lia].
  - intros r E. rewrite E in HL. exact HL.
  - intros r r' E E'. exact (Listening_step_forward _ p r r' HI E E').
Qed.

Lemma one_enter_listener_between_events_witness :
  let p := exec (run [Tab; FocusIn; Tab]) demoPage in
  enterListeners p = [(1%nat, 0%nat)]
  /\ enterListeners (exec (keydown (tabKey false)) p) = [(2%nat, 1%nat)].
Proof.
  cbv zeta.
  destruct (one_enter_listener_between_events pins [0; 1; 2]%nat demoIcons
              false [Tab; FocusIn; Tab]) as (_ & _ & _ & _ & H).
  destruct (H 0%nat 1%nat) as (h & H1 & _ & H3).
  - vm_compute. reflexivity.
  - vm_compute. reflexivity.
  - clear H H1. unfold demoPage. split; [vm_compute; reflexivity|].
    rewrite H3. clear. vm_compute. reflexivity.
Defined.

(** C4 as stated fails: replaying the calls of three forward Tabs, the
    step from marker 0 to marker 1 attaches listener 2 while listener 1 is
    still attached, so two Enter listeners are live at that time. *)
Lemma two_enter_listeners_within_step :
  let p := exec (run [Tab; FocusIn; Tab; Tab]) demoPage in
  effects p = [AddListener 0 (TabNav [0; 1; 2]%nat);
               SetIcon 0 (Some "sel"); PanTo {| lat := 0; lng := 0 |};
               AddListener 1 (EnterClick 0);
               SetIcon 1 (Some "sel"); PanTo {| lat := 1; lng := 0 |};
               AddListener 2 (EnterClick 1);
               SetIcon 0 (Some "desel"); RemoveListener 1]
  /\ peakEnterListeners (effects p) = 2%nat
  /\ ~ (peakEnterListeners (effects p) <= 1)%nat.
Proof.
  cbv zeta. split; [vm_compute; reflexivity|].
  assert (peakEnterListeners
            (effects (exec (run [Tab; FocusIn; Tab; Tab]) demoPage)) = 2%nat)
    as -> by (vm_compute; reflexivity).
  split; [reflexivity|lia].
Qed.

(** ** Re-binding *)

(** C5, as the code has it: [updateMarkerCount] replaces the stored marker
    list, recomputes the per-marker icons from the new list (in every mode,
    so also when distinct icons were requested), one icon per marker of the
    new list, and clears the stored activation listener.  It changes
    nothing else: the cursor, the live listeners and the marker icons stay
    as they were. *)
Theorem updateMarkerCount_replaces_list (new : list Ref) (p : Page) :
  let p' := exec (updateMarkerCount new) p in
  markers (markerNavigation p') = new
  /\ markerIcons (markerNavigation p') = map (fun r => icon (heap p r)) new
  /\ length (markerIcons (markerNavigation p')) = length new
  /\ previousMarkerListener (markerNavigation p') = None
  /\ cursor p' = cursor p
  /\ keydownListeners p' = keydownListeners p
  /\ heap p' = heap p
  /\ effects p' = effects p.
Proof.
  destruct_page p. cbv zeta. exec_step. cbn. rewrite length_map. done.
Qed.

(** C5 as stated fails: with three markers and the cursor on the last one,
    re-binding to a one-marker list leaves the cursor at 2, past the new
    bounds. *)
Lemma rebind_leaves_cursor_past_bounds :
  let p := exec (run [Tab; FocusIn; Tab; Tab; Tab]) demoPage in
  let p' := exec (updateMarkerCount [0%nat]) p in
  cursor p' = 2
  /\ ~ cursor p' <= Z.of_nat (length (markers (markerNavigation p'))).
Proof. vm_compute. split; [reflexivity|]. intros H. by apply H. Qed.

(** ** Tab outside the container *)




(** ** Losing the focus *)

(** C7, as the code has it: as long as the host does not re-bind the
    marker list, whenever the container loses the focus the marker at the
    cursor (if any) is deselected, its icon restored and its Enter
    listener detached, and the cursor is reset to -1, whatever the cursor
    was; when the cursor was on no marker nothing else happens.
    Afterwards no Enter listener is live, whatever the markers and the
    icons are, but the handle of the detached listener stays in the stored
    field: the focus-out handler does not assign
    [previousMarkerListener].  And no marker of the list carries the
    selected icon afterwards, provided the markers are distinct objects and
    the selected icon differs from the icons the markers start with and
    from the configured deselected icon. *)
Theorem focusout_resets_selection hp ms icons flag evs :
  let p := exec (run evs) (initPage hp ms icons flag) in
  let p' := exec (browser FocusOut) p in
  cursor p' = -1
  /\ activeIsMapDiv p' = false
  /\ enterListeners p' = []
  /\ previousMarkerListener (markerNavigation p')
     = previousMarkerListener (markerNavigation p)
  /\ (forall r : Ref, js_index ms (cursor p) = Some r ->
        icon (heap p' r) = restoreIconAt (markerNavigation p) (cursor p)
        /\ exists h : Handle,
             previousMarkerListener (markerNavigation p) = Some h
             /\ enterListeners p = [(h, r)]
             /\ effects p'
                = effects p
                  ++ [SetIcon r (restoreIconAt (markerNavigation p) (cursor p));
                      RemoveListener h])
  /\ (js_index ms (cursor p) = None -> effects p' = effects p)
  /\ (forall q : Page, cursor (exec focusoutListener q) = -1)
  /\ (NoDup ms ->
      (forall r, r ∈ ms -> icon (hp r) <> selectedIconOf icons) ->
      (flag = false -> deselectedIconOf icons <> selectedIconOf icons) ->
      selectedIndices p' = []).
Proof.
  cbv zeta.
  pose proof (Listening_reached hp ms icons flag evs) as HI.
  set (p := exec (run evs) (initPage hp ms icons flag)) in *.
  change (browser FocusOut) with focusout.
  pose proof (Listening_focusout _ _ HI) as HI'.
  assert (cursor (exec focusout p) = -1) as Hc.
  { apply focusout_cursor. apply (listening_focusout _ _ HI). }
  pose proof (Listening_enterListeners _ _ HI') as HL.
  rewrite Hc in HL.
  rewrite (proj2 (js_index_None ms (-1))) in HL by lia.
  pose proof (Listening_enterListeners _ _ HI) as HE.
  pose proof (Listening_focusout_deselects _ _ HI) as HD. cbv zeta in HD.
  destruct HD as (HP & HD).
  split; [exact Hc|]. split; [apply focusout_inactive|].
  split; [exact HL|]. split; [exact HP|].
  split; [|split; [|split; [exact focusoutListener_cursor|]]].
  - intros r E. rewrite E in HD, HE. destruct HD as (h & H1 & H2 & H3).
    destruct HE as (h' & HE1 & HE2).
    split; [exact H2|]. exists h. split; [exact H1|]. split; [|exact H3].
    rewrite HE1. congruence.
  - intros E. rewrite E in HD. exact HD.
  - intros Hnd Hms Hde.
    pose proof (Inv_reached hp ms icons flag evs Hnd Hms Hde) as HV.
    fold p in HV.
    assert (Inv ms (selectedIconOf icons) (deselectedIconOf icons)
                (markerIconsOf hp ms flag) (exec focusout p)) as HV'.
    { apply Inv_focusout; [exact Hnd| |exact HV]. by apply restore_distinct. }
    pose proof (Inv_selectedIndices _ _ _ _ _ HV') as HS.
    rewrite Hc in HS.
    by rewrite (proj2 (js_index_None ms (-1))) in HS by lia.
Qed.

Lemma focusout_resets_selection_witness :
  let p := exec (run [Tab; FocusIn; Tab; Tab]) demoPage in
  cursor p = 1
  /\ cursor (exec (browser FocusOut) p) = -1
  /\ selectedIndices (exec (browser FocusOut) p) = [].
Proof.
  cbv zeta. split; [vm_compute; reflexivity|].
  destruct (focusout_resets_selection pins [0; 1; 2]%nat demoIcons false
              [Tab; FocusIn; Tab; Tab]) as (H1 & _ & _ & _ & _ & _ & _ & H8).
  split; [exact H1|]. apply H8.
  - apply (bool_decide_unpack _). vm_compute. exact I.
  - intros r _. vm_compute. discriminate.
  - intros _. vm_compute. discriminate.
Defined.

(** C7 as stated fails: after Tab has selected marker 0 and the
    container then loses the focus, the cursor is the sentinel -1 but the
    stored activation listener is still the handle 1, not null. *)
Lemma focusout_keeps_listener_handle :
  let p := exec (run [Tab; FocusIn; Tab; FocusOut]) demoPage in
  cursor p = -1
  /\ previousMarkerListener (markerNavigation p) = Some 1%nat
  /\ ~ previousMarkerListener (markerNavigation p) = None.
Proof. vm_compute. repeat split; [discriminate]. Qed.

(** ** Absent markers *)

(** C8, as the code has it: operating on an absent marker (an index outside
    the stored marker list) is a silent no-op.  Selecting it changes
    nothing on the page and returns no listener; deselecting it changes
    nothing either: no icon is set and the given listener is not detached,
    since [__deselectMarker] returns on line 197 before it reaches
    [enterListener.remove()]. *)
Theorem absent_marker_is_noop (p : Page) (listener : option Handle) (i : Z) :
  i < 0 \/ Z.of_nat (length (markers (markerNavigation p))) <= i ->
  __selectMarker (js_index (markers (markerNavigation p)) i) p = (None, p)
  /\ __deselectMarker listener (js_index (markers (markerNavigation p)) i) p
     = (tt, p).
Proof.
  intros H. by rewrite (proj2 (js_index_None _ i) H).
Qed.

Lemma absent_marker_is_noop_witness :
  let p := exec (run [Tab; FocusIn; Tab]) demoPage in
  __selectMarker (js_index (markers (markerNavigation p)) 3) p = (None, p)
  /\ __deselectMarker (Some 1%nat) (js_index (markers (markerNavigation p)) 3) p
     = (tt, p).
Proof.
  apply (absent_marker_is_noop (exec (run [Tab; FocusIn; Tab]) demoPage)
           (Some 1%nat) 3).
  right. vm_compute. discriminate.
Defined.

(** C8 as stated fails: after Tab has selected marker 0, its Enter
    listener has handle 1; deselecting the absent marker at index 3 with
    that listener leaves the listener attached. *)
Lemma deselect_absent_keeps_listener :
  let p := exec (run [Tab; FocusIn; Tab]) demoPage in
  let p' := exec (__deselectMarker (Some 1%nat)
                    (js_index (markers (markerNavigation p)) 3)) p in
  attached 1 (keydownListeners p) = true
  /\ ~ attached 1 (keydownListeners p') = false.
Proof. vm_compute. split; [reflexivity|discriminate]. Qed.

(** ** Selecting and activating *)




(** ** The observer's marker list *)

(** C10: the key-down observer keeps the marker list it read when
    [keyNavInit] installed it.  After a re-bind has replaced the stored
    list, and whatever the host does before and the browser after it, the
    observer attached to the document is the one with the initial list;
    backward arming sets the cursor to the initial list's length; and in
    the container the exit and suppression tests compare the cursor with
    the initial list's length, while the step itself selects and deselects
    in the stored list. *)
Theorem observer_keeps_initial_list hp ms0 icons flag acts new evs :
  let p := exec (runHost (acts ++ Rebind new :: map Input evs))
                (initPage hp ms0 icons flag) in
  let n0 := Z.of_nat (length ms0) in
  markers (markerNavigation p) = new
  /\ wired ms0 (keydownListeners p)
  /\ (activeIsMapDiv p = false ->
      cursor (exec (keydown (tabKey true)) p) = n0)
  /\ (activeIsMapDiv p = true -> forall shift,
      let nav := markerNavigation p in
      let c := guardedCursor nav in
      let c1 := c + stepOf shift in
      let leaves := (n0 <=? c1) && negb shift || (c1 <=? -1) && shift in
      let p' := exec (dispatch (tabKey shift)) p in
      cursor p' = (if (n0 <=? c1) && negb shift then n0
                   else if (c1 <=? -1) && shift then -1 else c1)
      /\ defaultPrevented p' = negb leaves
      /\ effects p'
         = effects p
           ++ selectEffects p (js_index new c1)
           ++ deselectEffects p c (previousMarkerListener nav)
                (js_index new c)).
Proof.
  cbv zeta.
  pose proof (Wired_reached hp ms0 icons flag
                (acts ++ Rebind new :: map Input evs)) as W.
  assert (markers (markerNavigation
            (exec (runHost (acts ++ Rebind new :: map Input evs))
                  (initPage hp ms0 icons flag))) = new) as HM.
  { rewrite exec_runHost_app, exec_runHost_cons, exec_runHost_inputs,
      markers_run.
    generalize (exec (runHost acts) (initPage hp ms0 icons flag)). clear.
    intros p. by destruct_page p. }
  set (p := exec (runHost _) (initPage hp ms0 icons flag)) in *.
  split; [exact HM|]. split; [apply W|]. split.
  - intros HA. rewrite (keydown_tab_outside ms0) by assumption. reflexivity.
  - intros HA shift. rewrite (dispatch_tab ms0); [|exact W|reflexivity].
    pose proof (tabNavListener_inside ms0 (tabKey shift) (exec newEvent p)
                  eq_refl HA) as H.
    cbv zeta in H. destruct H as (Hc & Hd & _ & _ & He).
    pose proof (iterateMarkers_run (previousMarkerListener (markerNavigation p))
                  shift (exec newEvent p)) as H.
    cbv zeta in H. destruct H as (He' & _).
    change (markerNavigation (exec newEvent p)) with (markerNavigation p)
      in He'.
    rewrite HM in He'.
    rewrite Hc, Hd, He. split; [reflexivity|]. split; [|exact He'].
    change (defaultPrevented (exec newEvent p)) with false.
    cbn [shiftKey tabKey].
    destruct (_ || _); reflexivity.
Qed.

Lemma observer_keeps_initial_list_witness :
  let p := exec (runHost [Rebind [0%nat]]) demoPage in
  markers (markerNavigation p) = [0%nat]
  /\ cursor (exec (keydown (tabKey true)) p) = 3.
Proof.
  destruct (observer_keeps_initial_list pins [0; 1; 2]%nat demoIcons false
              [] [0%nat] []) as (H1 & _ & H2 & _).
  split; [exact H1|]. apply H2. vm_compute. reflexivity.
Defined.

(** * Further invariants *)

(** ** Initialization on any page *)

Lemma keyNavInit_eq ms icons flag p :
  exec (keyNavInit ms icons flag) p
  = {| markerNavigation :=
         {| markers := ms; currentMarker := -1;
            markerIcons := markerIconsOf (heap p) ms flag;
            selectedMarkerIcon := selectedIconOf icons;
            deselectedMarkerIcon := deselectedIconOf icons;
            previousMarkerListener := None |};
       heap := heap p; mapCenter := mapCenter p;
       keydownListeners := keydownListeners p ++ [(nextHandle p, TabNav ms)];
       focusoutListeners := S (focusoutListeners p);
       nextHandle := S (nextHandle p);
       activeIsMapDiv := activeIsMapDiv p;
       defaultPrevented := defaultPrevented p;
       effects := effects p ++ [AddListener (nextHandle p) (TabNav ms)] |}.
Proof.
  destruct_page p.
  unfold selectedIconOf, deselectedIconOf, markerIconsOf.
  destruct icons as [[s d]|]; destruct flag; crunch; reflexivity.
Qed.

(** ** Properties kept by every action of the host

    A property of the page that each listener and each of the browser's
    own steps keeps is kept by every run of events; when the re-bind keeps
    it too, by everything the host does. *)

Section HostInvariant.
Variable ms0 : list Ref.
Variable Q : Page -> Prop.
Hypothesis Q_tabNavListener :
  forall e p, Q p -> Q (exec (tabNavListener ms0 e) p).
Hypothesis Q_enterListener :
  forall r e p, Q p -> Q (exec (enterListener r e) p).
Hypothesis Q_focusoutListener : forall p, Q p -> Q (exec focusoutListener p).
Hypothesis Q_setActive : forall b p, Q p -> Q (exec (setActive b) p).
Hypothesis Q_newEvent : forall p, Q p -> Q (exec newEvent p).

Lemma lift_dispatchKeydown ls e p :
  Forall (fun hl : Handle * Listener =>
            snd hl = TabNav ms0 \/ exists r, snd hl = EnterClick r) ls ->
  Q p -> Q (exec (dispatchKeydown ls e) p).
Proof.
  intros Hls. revert p. induction Hls as [|[h l] ls Hl _ IH]; intros p HQ;
    [exact HQ|].
  change (exec (dispatchKeydown ((h, l) :: ls) e) p)
    with (exec (when (attached h (keydownListeners p)) (runListener l e) ;;
                dispatchKeydown ls e) p).
  rewrite exec_bind. apply IH. unfold when.
  destruct (attached h (keydownListeners p)); [|exact HQ].
  cbn [snd] in Hl. destruct Hl as [->|[r ->]];
    [by apply Q_tabNavListener|by apply Q_enterListener].
Qed.

Lemma lift_repeatM n p : Q p -> Q (exec (repeatM n focusoutListener) p).
Proof.
  revert p. induction n as [|n IH]; intros p HQ; [exact HQ|].
  cbn [repeatM]. rewrite exec_bind. by apply IH, Q_focusoutListener.
Qed.

Lemma lift_focusout p : Q p -> Q (exec focusout p).
Proof.
  intros HQ.
  change (exec focusout p)
    with (exec (repeatM (focusoutListeners p) focusoutListener ;;
                setActive false) p).
  rewrite exec_bind. by apply Q_setActive, lift_repeatM.
Qed.

Lemma lift_keydown e p : Wired ms0 p -> Q p -> Q (exec (keydown e) p).
Proof.
  intros W HQ. rewrite exec_keydown.
  assert (Q (exec (dispatch e) p)) as HQ'.
  { rewrite exec_dispatch. apply lift_dispatchKeydown.
    - apply wired_listeners_known, W.
    - by apply Q_newEvent. }
  revert HQ'. generalize (exec (dispatch e) p). clear W HQ. intros q HQ.
  unfold defaultAction, exec, bind, getDefaultPrevented,
    activeElementIsMapDiv, when.
  destruct (isTab e && negb (defaultPrevented q) && activeIsMapDiv q);
    [by apply lift_focusout|exact HQ].
Qed.

Lemma lift_browser ev p : Wired ms0 p -> Q p -> Q (exec (browser ev) p).
Proof.
  intros W HQ. destruct ev;
    [by apply lift_keydown|by apply Q_setActive|by apply lift_focusout].
Qed.

Lemma lift_run evs p : Wired ms0 p -> Q p -> Q (exec (run evs) p).
Proof.
  revert p. induction evs as [|ev evs IH]; intros p W HQ; [exact HQ|].
  rewrite exec_run_cons.
  apply IH; [by apply Wired_browser|by apply lift_browser].
Qed.

Hypothesis Q_updateMarkerCount :
  forall ms p, Q p -> Q (exec (updateMarkerCount ms) p).

Lemma lift_host a p : Wired ms0 p -> Q p -> Q (exec (host a) p).
Proof.
  intros W HQ. destruct a;
    [by apply lift_browser|by apply Q_updateMarkerCount].
Qed.

Lemma lift_runHost acts p : Wired ms0 p -> Q p -> Q (exec (runHost acts) p).
Proof.
  revert p. induction acts as [|a acts IH]; intros p W HQ; [exact HQ|].
  rewrite exec_runHost_cons.
  apply IH; [by apply Wired_host|by apply lift_host].
Qed.
End HostInvariant.

(** ** Handles are not reused *)

Lemma fresh_add n ls l : fresh n ls -> fresh (S n) (ls ++ [(n, l)]).
Proof.
  intros H. apply Forall_app. split.
  - eapply Forall_impl; [exact H|]. cbn. lia.
  - apply Forall_singleton. cbn. lia.
Qed.

Lemma fresh_detach h n ls : fresh n ls -> fresh n (detach h ls).
Proof.
  intros H. unfold detach. induction H as [|hl ls Hhl _ IH]; [constructor|].
  cbn [List.filter]. destruct (negb _); [by constructor|exact IH].
Qed.

Ltac solve_Fresh :=
  unfold Fresh in *; cbn [nextHandle keydownListeners] in *;
  repeat first [ assumption | apply fresh_detach | apply fresh_add ].

Lemma Fresh_runHost ms0 acts p :
  Wired ms0 p -> Fresh p -> Fresh (exec (runHost acts) p).
Proof.
  apply lift_runHost; clear.
  - intros e p H. destruct_page p. crunch; solve_Fresh.
  - intros r e p H. destruct_page p. crunch; solve_Fresh.
  - intros p H. destruct_page p. crunch; solve_Fresh.
  - intros b p H. destruct_page p. crunch; solve_Fresh.
  - intros p H. destruct_page p. crunch; solve_Fresh.
  - intros ms p H. destruct_page p. crunch; solve_Fresh.
Qed.

Lemma Fresh_reached hp ms icons flag acts :
  Fresh (exec (runHost acts) (initPage hp ms icons flag)).
Proof.
  apply (Fresh_runHost ms); [apply Wired_initPage|].
  rewrite initPage_eq. apply Forall_singleton. cbn. lia.
Qed.

(** ** A listener the controller has lost track of *)

Lemma elem_detach (h h' : Handle) (l : Listener) ls :
  h <> h' -> (h, l) ∈ ls -> (h, l) ∈ detach h' ls.
Proof.
  intros Hne H. apply list_elem_of_In, filter_In. split.
  - by apply list_elem_of_In.
  - cbn. by destruct (Nat.eqb_spec h h').
Qed.

Lemma elem_add (hl x : Handle * Listener) ls : hl ∈ ls -> hl ∈ ls ++ [x].
Proof. intros H. apply elem_of_app. by left. Qed.

Ltac solve_Kept :=
  split; cbn [markerNavigation keydownListeners nextHandle
              previousMarkerListener];
  [ repeat first [ assumption | apply elem_add
                 | apply elem_detach; [congruence|] ]
  | congruence || (intros [=]; lia)
  | lia ].

Ltac open_kept p :=
  intros [K1 K2 K3]; destruct_page p; simpl in *.

Lemma Kept_runHost ms0 h l acts p :
  Wired ms0 p -> Kept h l p -> Kept h l (exec (runHost acts) p).
Proof.
  apply lift_runHost; clear.
  - intros e p. open_kept p. crunch; solve_Kept.
  - intros r e p. open_kept p. crunch; solve_Kept.
  - intros p. open_kept p. crunch; solve_Kept.
  - intros b p. open_kept p. crunch; solve_Kept.
  - intros p. open_kept p. crunch; solve_Kept.
  - intros ms p. open_kept p. crunch; solve_Kept.
Qed.

Lemma Kept_updateMarkerCount h l new p :
  Fresh p -> (h, l) ∈ keydownListeners p ->
  Kept h l (exec (updateMarkerCount new) p).
Proof.
  intros HF HL. split.
  - exact HL.
  - discriminate.
  - unfold Fresh, fresh in HF. rewrite Forall_forall in HF.
    exact (HF _ HL).
Qed.

Lemma Kept_rebound hp ms icons flag acts1 new acts2 h l :
  (h, l) ∈ keydownListeners (exec (runHost acts1) (initPage hp ms icons flag)) ->
  Kept h l (exec (runHost (acts1 ++ Rebind new :: acts2))
                 (initPage hp ms icons flag)).
Proof.
  intros HL. rewrite exec_runHost_app, exec_runHost_cons.
  apply (Kept_runHost ms).
  - apply Wired_updateMarkerCount, Wired_reached.
  - apply Kept_updateMarkerCount; [apply Fresh_reached|exact HL].
Qed.

(** ** Keys other than Tab *)

Lemma addEffects_nil p : addEffects [] p = p.
Proof. destruct p. unfold addEffects. cbn. by rewrite app_nil_r. Qed.

Lemma addEffects_app a b p :
  addEffects b (addEffects a p) = addEffects (a ++ b) p.
Proof. unfold addEffects. cbn. by rewrite app_assoc. Qed.

Lemma enterListener_addEffects r e p :
  exec (enterListener r e) p
  = addEffects (if activeIsMapDiv p && isEnter e then [TriggerClick r] else []) p.
Proof.
  unfold enterListener, exec, bind, activeElementIsMapDiv, when.
  destruct (activeIsMapDiv p && isEnter e); [reflexivity|].
  by rewrite addEffects_nil.
Qed.

Lemma defaultAction_other e p : isTab e = false -> exec (defaultAction e) p = p.
Proof.
  intros H. unfold defaultAction, exec, bind, getDefaultPrevented,
    activeElementIsMapDiv, when.
  by rewrite H.
Qed.

Lemma attached_elem h l ls : (h, l) ∈ ls -> attached h ls = true.
Proof.
  intros H. unfold attached. apply existsb_exists. exists (h, l).
  split; [by apply list_elem_of_In|]. apply Nat.eqb_refl.
Qed.

Lemma dispatchKeydown_clicks es e p :
  Forall (fun hl : Handle * Listener =>
            (0 < fst hl)%nat /\ exists r, snd hl = EnterClick r) es ->
  es ⊆ keydownListeners p ->
  exec (dispatchKeydown es e) p
  = addEffects
      (if activeIsMapDiv p && isEnter e
       then map (fun hr : Handle * Ref => TriggerClick (snd hr))
                (omap (fun hl : Handle * Listener =>
                         match snd hl with
                         | EnterClick r => Some (fst hl, r)
                         | TabNav _ => None
                         end) es)
       else []) p.
Proof.
  intros Hes. revert p. induction Hes as [|[h l] es (_ & r & Hl) _ IH];
    intros p Hsub.
  - change (exec (dispatchKeydown [] e) p) with p.
    destruct (_ && _); symmetry; apply addEffects_nil.
  - cbn [snd] in Hl. subst l.
    change (exec (dispatchKeydown ((h, EnterClick r) :: es) e) p)
      with (exec (when (attached h (keydownListeners p)) (enterListener r e) ;;
                  dispatchKeydown es e) p).
    rewrite exec_bind.
    rewrite (attached_elem h (EnterClick r)) by (apply Hsub; left).
    unfold when. rewrite enterListener_addEffects, IH.
    2:{ intros x Hx. cbn. apply Hsub. by right. }
    rewrite addEffects_app. cbn [activeIsMapDiv addEffects omap list_omap snd fst].
    destruct (activeIsMapDiv p && isEnter e); reflexivity.
Qed.

Lemma keydown_other ms0 (e : KeyEvent) (p : Page) :
  Wired ms0 p -> isTab e = false ->
  exec (keydown e) p
  = addEffects (if activeIsMapDiv p && isEnter e then enterClicks p else [])
               (exec newEvent p).
Proof.
  intros [(es & Hkl & Hes) _ _ _] HT.
  rewrite exec_keydown, defaultAction_other by exact HT.
  rewrite exec_dispatch, Hkl.
  change (exec (dispatchKeydown ((0%nat, TabNav ms0) :: es) e) (exec newEvent p))
    with (exec (when (attached 0 (keydownListeners p)) (tabNavListener ms0 e) ;;
                dispatchKeydown es e) (exec newEvent p)).
  rewrite exec_bind, Hkl. unfold attached at 1. cbn [existsb fst Nat.eqb orb when].
  rewrite tabNavListener_other by exact HT.
  rewrite dispatchKeydown_clicks; [|exact Hes|].
  - unfold enterClicks, enterListeners. rewrite Hkl. reflexivity.
  - change (keydownListeners (exec newEvent p)) with (keydownListeners p).
    rewrite Hkl. intros x Hx. by right.
Qed.

Lemma clicks_addEffects r effs p :
  clicks r (addEffects effs p)
  = (clicks r p
     + length (List.filter (fun x => bool_decide (x = TriggerClick r)) effs))%nat.
Proof.
  unfold clicks, addEffects. cbn [effects].
  by rewrite List.filter_app, length_app.
Qed.

Lemma clicks_newEvent r p : clicks r (exec newEvent p) = clicks r p.
Proof. reflexivity. Qed.

Lemma filter_elem_pos (x : Effect) (l : list Effect) :
  x ∈ l -> (0 < length (List.filter (fun y => bool_decide (y = x)) l))%nat.
Proof.
  induction 1 as [y l|y z l _ IH]; cbn [List.filter].
  - rewrite bool_decide_eq_true_2 by reflexivity. cbn. lia.
  - destruct (bool_decide (z = y)); cbn [length]; lia.
Qed.

Lemma enterClicks_elem (h : Handle) (r : Ref) (p : Page) :
  (h, EnterClick r) ∈ keydownListeners p -> TriggerClick r ∈ enterClicks p.
Proof.
  intros H. unfold enterClicks, enterListeners.
  apply list_elem_of_In.
  apply (in_map (fun hr : Handle * Ref => TriggerClick (snd hr)) _ (h, r)).
  apply list_elem_of_In, list_elem_of_omap.
  exists (h, EnterClick r). by split.
Qed.

(** ** What the markers and the map show *)

Lemma js_index_elem {A} (a : list A) (i : Z) (x : A) :
  js_index a i = Some x -> x ∈ a.
Proof.
  intros H. apply js_index_Some in H as [_ H]. by eapply list_elem_of_lookup_2.
Qed.

Lemma heapSetIcon_other r i h r' : r' <> r -> heapSetIcon r i h r' = h r'.
Proof. intros H. unfold heapSetIcon. by destruct (Nat.eqb_spec r' r). Qed.

Section Tending.
Variable ms : list Ref.
Variable init : Ref -> Marker.

Ltac open_tended p :=
  intros [T1 T2 T3 T4]; destruct_page p; unfold cursor in *; simpl in *; subst.

Ltac solve_Tended T2 T3 T4 :=
  split; unfold cursor;
  cbn [markerNavigation heap mapCenter currentMarker markers];
  [ reflexivity
  | let r' := fresh "r'" in let Hr := fresh "Hr" in
    intros r' Hr;
    rewrite ?heapSetIcon_other
      by (intros ->; apply Hr; eauto using js_index_elem);
    exact (T2 r' Hr)
  | let r' := fresh "r'" in
    intros r'; rewrite ?position_heapSetIcon; apply T3
  | let r' := fresh "r'" in let Hr := fresh "Hr" in
    intros r' Hr;
    first [ exact (T4 r' Hr)
          | solve [exfalso; js_facts; lia]
          | rewrite ?position_heapSetIcon, ?T3; congruence ] ].

Lemma Tended_run evs p :
  Wired ms p -> Tended ms init p -> Tended ms init (exec (run evs) p).
Proof.
  apply lift_run; clear.
  - intros e p. open_tended p. crunch; solve_Tended T2 T3 T4.
  - intros r e p. open_tended p. crunch; solve_Tended T2 T3 T4.
  - intros p. open_tended p. crunch; solve_Tended T2 T3 T4.
  - intros b p. open_tended p. crunch; solve_Tended T2 T3 T4.
  - intros p. open_tended p. crunch; solve_Tended T2 T3 T4.
Qed.
End Tending.

Lemma Tended_reached hp ms icons flag evs :
  Tended ms hp (exec (run evs) (initPage hp ms icons flag)).
Proof.
  apply Tended_run; [apply Wired_initPage|].
  rewrite initPage_eq. split; unfold cursor; cbn; try reflexivity.
  intros r H. discriminate.
Qed.

Ltac solve_Plain :=
  split; cbn [markerNavigation effects selectedMarkerIcon deselectedMarkerIcon
              markerIcons];
  [ reflexivity | reflexivity | reflexivity
  | repeat (apply Forall_app; split); try assumption;
    apply Forall_singleton;
    let X := fresh "X" in
    intros ? ? X;
    first [ discriminate X
          | injection X as <- <-; first [left; reflexivity|right; reflexivity] ] ].

Ltac open_plain p :=
  intros [P1 P2 P3 P4]; destruct_page p; simpl in *; subst.

Lemma Plain_run ms0 sel de evs p :
  Wired ms0 p -> Plain sel de p -> Plain sel de (exec (run evs) p).
Proof.
  apply lift_run; clear.
  - intros e p. open_plain p. crunch; solve_Plain.
  - intros r e p. open_plain p. crunch; solve_Plain.
  - intros p. open_plain p. crunch; solve_Plain.
  - intros b p. open_plain p. crunch; solve_Plain.
  - intros p. open_plain p. crunch; solve_Plain.
Qed.

Lemma Plain_reached hp ms icons evs :
  Plain (selectedIconOf icons) (deselectedIconOf icons)
        (exec (run evs) (initPage hp ms icons false)).
Proof.
  apply (Plain_run ms); [apply Wired_initPage|].
  rewrite initPage_eq. split; cbn; try reflexivity.
  apply Forall_singleton. intros ? ? X. discriminate X.
Qed.

Section Showing.
Variable ms : list Ref.
Variables sel de : Icon.
Variable mi : list Icon.
Variable init : Ref -> Marker.
Hypothesis ms_distinct : NoDup ms.
Hypothesis restore_not_selected :
  forall (i : nat) (r : Ref), ms !! i = Some r ->
    (if Nat.eqb (length mi) 0 then de else mjoin (mi !! i)) <> sel.

Ltac solve_Shown S2 :=
  let i := fresh "i" in let r' := fresh "r'" in let Hi := fresh "Hi" in
  let Hne := fresh "Hne" in let X := fresh "X" in let Y := fresh "Y" in
  split; unfold cursor; cbn [markerNavigation heap currentMarker];
  intros i r' Hi Hne; rewrite ?icon_heapSetIcon;
  repeat match goal with
  | |- context [Nat.eqb r' ?x] => destruct (Nat.eqb_spec r' x); [subst r'|]
  end;
  first
  [ solve [exfalso; apply lookup_lt_Some in Hi; js_facts; lia]
  | solve [exfalso; apply Hne;
           match goal with
           | E : js_index ms ?c = Some ?r |- _ =>
               exact (proj2 (index_char ms ms_distinct i r c Hi) E)
           end]
  | solve [right; unfold restoreIcon, restoreIconAt;
           cbn [markerIcons deselectedMarkerIcon currentMarker];
           match goal with
           | E : js_index ms ?c = Some ?r |- _ =>
               rewrite (proj2 (index_char ms ms_distinct i r c Hi) E);
               reflexivity
           end]
  | solve [destruct (S2 i r' Hi) as [X|X];
           [ lazymatch goal with
             | |- _ <> ?c =>
                 first [ exact Hne
                       | intros Y;
                         match goal with
                         | E : js_index ms c = _ |- _ =>
                             rewrite <- Y, js_index_of_nat in E; congruence
                         end ]
             end
           | left; exact X | right; exact X ]] ].

Ltac open_shown :=
  intros [S2]; unfold cursor in *; simpl in S2.

Lemma Shown_focusIn p :
  Inv ms sel de mi p -> Shown ms init p -> Shown ms init (exec (setActive true) p).
Proof.
  open_inv p. destruct (js_index ms c) as [r|] eqn:E;
    [destruct H8 as (h & -> & -> & Hh & Hne & ->)|subst];
    open_shown; crunch; solve_Shown S2.
Qed.

Lemma Shown_focusout p :
  Inv ms sel de mi p -> Shown ms init p -> Shown ms init (exec focusout p).
Proof.
  open_inv p. destruct (js_index ms c) as [r|] eqn:E;
    [destruct H8 as (h & -> & -> & Hh & Hne & ->)|subst];
    open_shown; crunch; solve_Shown S2.
Qed.

Lemma Shown_keydown e p :
  Inv ms sel de mi p -> Shown ms init p -> Shown ms init (exec (keydown e) p).
Proof.
  open_inv p.
  destruct (isTab e) eqn:ET; [pose proof (isTab_not_isEnter _ ET) as EE|];
    destruct (shiftKey e) eqn:ES;
    (destruct (js_index ms c) as [r|] eqn:E;
     [destruct H8 as (h & -> & -> & Hh & Hne & ->)|subst]).
  all: open_shown; crunch.
  all: solve_Shown S2.
Qed.

Lemma Shown_run evs p :
  Inv ms sel de mi p -> Shown ms init p -> Shown ms init (exec (run evs) p).
Proof.
  revert p. induction evs as [|ev evs IH]; intros p HI HS; [exact HS|].
  rewrite exec_run_cons. apply IH.
  - by apply Inv_browser.
  - destruct ev; [by apply Shown_keydown|by apply Shown_focusIn
                 |by apply Shown_focusout].
Qed.
End Showing.

Lemma Shown_reached hp ms icons flag evs :
  NoDup ms ->
  (forall r, r ∈ ms -> icon (hp r) <> selectedIconOf icons) ->
  (flag = false -> deselectedIconOf icons <> selectedIconOf icons) ->
  Shown ms hp (exec (run evs) (initPage hp ms icons flag)).
Proof.
  intros Hnd Hms Hde.
  apply (Shown_run ms (selectedIconOf icons) (deselectedIconOf icons)
           (markerIconsOf hp ms flag)).
  - exact Hnd.
  - by apply restore_distinct.
  - by apply Inv_initPage.
  - rewrite initPage_eq. split. intros. by left.
Qed.

(** The icon of a marker that is not at the cursor. *)
Lemma unselected_icon hp ms icons flag evs (i : nat) (r : Ref) :
  NoDup ms ->
  (forall r, r ∈ ms -> icon (hp r) <> selectedIconOf icons) ->
  (flag = false -> deselectedIconOf icons <> selectedIconOf icons) ->
  let p := exec (run evs) (initPage hp ms icons flag) in
  ms !! i = Some r -> Z.of_nat i <> cursor p ->
  if flag then icon (heap p r) = icon (hp r)
  else icon (heap p r) = icon (hp r)
       \/ icon (heap p r) = deselectedIconOf icons.
Proof.
  intros Hnd Hms Hde p Hi Hc.
  destruct (Inv_reached hp ms icons flag evs Hnd Hms Hde)
    as [_ _ H3 H4 _ _ _ _].
  destruct (Shown_reached hp ms icons flag evs Hnd Hms Hde) as [S2].
  fold p in H3, H4, S2. specialize (S2 i r Hi Hc).
  unfold restoreIconAt in S2. rewrite H3, H4 in S2. unfold markerIconsOf in S2.
  destruct flag; [|exact S2].
  rewrite length_map, js_index_of_nat in S2.
  change (map (fun r0 => icon (hp r0)) ms)
    with ((fun r0 => icon (hp r0)) <$> ms) in S2.
  rewrite list_lookup_fmap, Hi in S2.
  destruct (Nat.eqb_spec (length ms) 0) as [Z|_].
  { apply lookup_lt_Some in Hi. lia. }
  by destruct S2.
Qed.

(** ** Distinct icons come back *)

Lemma marker_eta (m : Marker) : {| icon := icon m; position := position m |} = m.
Proof. by destruct m. Qed.

Lemma heapSetIcon_same r i h :
  heapSetIcon r i h r = {| icon := i; position := position (h r) |}.
Proof. unfold heapSetIcon. by rewrite Nat.eqb_refl. Qed.

Lemma restoreIcon_captured (ms : list Ref) (init : Ref -> Marker)
                           (n : Nav) (r : Ref) :
  markerIcons n = map (fun r => icon (init r)) ms ->
  js_index ms (currentMarker n) = Some r ->
  restoreIcon n = icon (init r).
Proof.
  intros Hmi E. unfold restoreIcon. rewrite Hmi, length_map.
  pose proof E as E'. apply js_index_Some in E' as [E0 E'].
  destruct (Nat.eqb_spec (length ms) 0) as [Z|_].
  { apply lookup_lt_Some in E'. lia. }
  unfold js_index in *. destruct (currentMarker n <? 0); [discriminate|].
  change (map (fun r0 => icon (init r0)) ms)
    with ((fun r0 => icon (init r0)) <$> ms).
  by rewrite list_lookup_fmap, E.
Qed.

Section Restoring.
Variable ms : list Ref.
Variable init : Ref -> Marker.

Ltac open_restored :=
  intros [R1 R3 R2]; unfold cursor in *; simpl in R1, R2, R3; subst.

Ltac solve_heap R2 R3 :=
  let r' := fresh "r'" in let Hr := fresh "Hr" in
  intros r' Hr;
  repeat match goal with
  | |- heapSetIcon ?x ?i ?h ?r = _ =>
      destruct (decide (r = x)) as [?|?];
      [ subst;
        first [ solve [exfalso; apply Hr; assumption]
              | rewrite heapSetIcon_same, ?position_heapSetIcon, R3;
                erewrite (restoreIcon_captured ms init)
                  by (first [reflexivity|cbn [currentMarker]; eassumption]);
                apply marker_eta ]
      | rewrite (heapSetIcon_other x i h r) by assumption ]
  end;
  try (apply R2; first [exact Hr|congruence]).

Ltac solve_Restored R2 R3 :=
  split; unfold cursor; cbn [markerNavigation heap currentMarker markerIcons];
  [ reflexivity
  | let r' := fresh "r'" in
    intros r'; rewrite ?position_heapSetIcon; apply R3
  | solve_heap R2 R3 ].

Lemma Restored_focusIn p :
  Listening ms p -> Restored ms init p ->
  Restored ms init (exec (setActive true) p).
Proof.
  open_listening p. destruct (js_index ms c) as [r|] eqn:E;
    [destruct H8 as (h & -> & -> & Hh & Hne & ->)|subst];
    open_restored; crunch; solve_Restored R2 R3.
Qed.

Lemma Restored_focusout p :
  Listening ms p -> Restored ms init p -> Restored ms init (exec focusout p).
Proof.
  open_listening p. destruct (js_index ms c) as [r|] eqn:E;
    [destruct H8 as (h & -> & -> & Hh & Hne & ->)|subst];
    open_restored; crunch; solve_Restored R2 R3.
Qed.

Lemma Restored_keydown e p :
  Listening ms p -> Restored ms init p ->
  Restored ms init (exec (keydown e) p).
Proof.
  open_listening p.
  destruct (isTab e) eqn:ET; [pose proof (isTab_not_isEnter _ ET) as EE|];
    destruct (shiftKey e) eqn:ES;
    (destruct (js_index ms c) as [r|] eqn:E;
     [destruct H8 as (h & -> & -> & Hh & Hne & ->)|subst]).
  all: open_restored; crunch.
  all: solve_Restored R2 R3.
Qed.

Lemma Restored_run evs p :
  Listening ms p -> Restored ms init p -> Restored ms init (exec (run evs) p).
Proof.
  revert p. induction evs as [|ev evs IH]; intros p HL HR; [exact HR|].
  rewrite exec_run_cons. apply IH.
  - by apply Listening_browser.
  - destruct ev; [by apply Restored_keydown|by apply Restored_focusIn
                 |by apply Restored_focusout].
Qed.
End Restoring.

Lemma Restored_reached hp ms icons evs :
  Restored ms hp (exec (run evs) (initPage hp ms icons true)).
Proof.
  apply Restored_run.
  - exact (Listening_reached hp ms icons true []).
  - rewrite initPage_eq. split; reflexivity.
Qed.

(** ** The focus-out handler run again *)

Lemma focusoutListener_twice p :
  exec focusoutListener (exec focusoutListener p) = exec focusoutListener p.
Proof. destruct_page p. crunch; reflexivity. Qed.

Lemma repeatM_settled n q :
  exec focusoutListener q = q -> exec (repeatM n focusoutListener) q = q.
Proof.
  intros H. induction n as [|n IH]; [reflexivity|].
  cbn [repeatM]. by rewrite exec_bind, H.
Qed.

Lemma repeatM_settles n p :
  exec focusoutListener (exec (repeatM (S n) focusoutListener) p)
  = exec (repeatM (S n) focusoutListener) p.
Proof.
  cbn [repeatM]. rewrite exec_bind.
  rewrite (repeatM_settled n) by apply focusoutListener_twice.
  apply focusoutListener_twice.
Qed.

Lemma focusoutListener_setActive b q :
  exec focusoutListener (exec (setActive b) q)
  = exec (setActive b) (exec focusoutListener q).
Proof. destruct_page q. crunch; reflexivity. Qed.

Lemma focusoutListeners_repeatM n p :
  focusoutListeners (exec (repeatM n focusoutListener) p) = focusoutListeners p.
Proof.
  revert p. induction n as [|n IH]; intros p; [reflexivity|].
  cbn [repeatM]. rewrite exec_bind, IH. destruct_page p. crunch; reflexivity.
Qed.

Lemma exec_focusout p :
  exec focusout p
  = exec (setActive false)
         (exec (repeatM (focusoutListeners p) focusoutListener) p).
Proof.
  change (exec focusout p)
    with (exec (repeatM (focusoutListeners p) focusoutListener ;;
                setActive false) p).
  apply exec_bind.
Qed.

(** ** Going backward *)

Lemma backward_tabs hp ms icons flag (k : nat) :
  (k <= length ms)%nat ->
  let q := exec (run (ShiftTab :: FocusIn :: replicate k ShiftTab))
                (initPage hp ms icons flag) in
  cursor q = Z.of_nat (length ms) - Z.of_nat k
  /\ activeIsMapDiv q = true
  /\ ((1 <= k)%nat -> defaultPrevented q = true).
Proof.
  induction k as [|k IH]; intros Hk; cbv zeta.
  - rewrite !exec_run_cons.
    change (exec (browser ShiftTab) (initPage hp ms icons flag))
      with (exec (keydown (tabKey true)) (initPage hp ms icons flag)).
    rewrite (keydown_tab_outside ms)
      by (first [apply Wired_initPage|by rewrite initPage_eq]).
    split; [|split; [reflexivity|lia]].
    unfold cursor. cbn. lia.
  - destruct IH as (Hc & Ha & _); [lia|].
    rewrite replicate_S_end, !app_comm_cons, exec_run_app.
    destruct (Wired_Ranged_reached hp ms icons flag
                (ShiftTab :: FocusIn :: replicate k ShiftTab)) as [W R].
    set (q := exec (run (ShiftTab :: FocusIn :: replicate k ShiftTab)) _) in *.
    rewrite exec_run_cons.
    change (exec (run []) (exec (browser ShiftTab) q))
      with (exec (keydown (tabKey true)) q).
    pose proof (dispatch_tab_inside ms true q W R Ha) as H. cbv zeta in H.
    destruct H as (Hc' & Hd' & Ha').
    assert (exits (Z.of_nat (length ms)) (cursor q) true = false) as He.
    { unfold exits. apply Z.leb_gt. lia. }
    rewrite He in Hd'. cbn [negb] in Hd'.
    rewrite exec_keydown, defaultAction_suppressed by done.
    rewrite Hc', Ha'. repeat split; [|done].
    unfold stepCursor. destruct (Z.leb_spec (cursor q - 1) (-1)); lia.
Qed.

(** ** No markers *)

Ltac crunch_nil :=
  exec_step;
  repeat (first [ rewrite js_index_nil
                | progress change (Nat.eqb (length (@nil Ref)) 0) with true
                | case_step ];
          try absurd_case; exec_step).

Lemma empty_browser sel de mi ev p :
  Inv [] sel de mi p ->
  let p' := exec (browser ev) p in
  effects p' = effects p /\ heap p' = heap p /\ mapCenter p' = mapCenter p.
Proof.
  intros [H1 H2 H3 H4 H5 H6 H7 (h0 & Hh0 & H8)].
  rewrite js_index_nil in H8.
  destruct_page p. unfold cursor in *. simpl in *. subst.
  destruct ev as [e| |];
    [destruct (isTab e) eqn:ET; [pose proof (isTab_not_isEnter _ ET) as EE|]|..];
    crunch_nil; repeat split; reflexivity.
Qed.

Lemma Inv_nil hp icons flag evs :
  Inv [] (selectedIconOf icons) (deselectedIconOf icons)
      (markerIconsOf hp [] flag) (exec (run evs) (initPage hp [] icons flag)).
Proof.
  apply Inv_run.
  - constructor.
  - intros i r H. discriminate H.
  - apply Inv_initPage. intros r H. by apply elem_of_nil in H.
Qed.

Lemma empty_run hp icons flag evs :
  let p := exec (run evs) (initPage hp [] icons flag) in
  effects p = [AddListener 0 (TabNav [])] /\ heap p = hp /\ mapCenter p = None.
Proof.
  induction evs as [|ev evs IH] using rev_ind; cbv zeta.
  - rewrite initPage_eq. repeat split.
  - rewrite exec_run_app.
    pose proof (empty_browser _ _ _ ev _ (Inv_nil hp icons flag evs)) as H.
    cbv zeta in H, IH. rewrite exec_run_cons.
    change (exec (run []) ?q) with q.
    destruct H as (-> & -> & ->). exact IH.
Qed.

(** ** A Tab onto an index without a marker *)

Lemma tabNavListener_absent (ms0 : list Ref) (q : Page) :
  activeIsMapDiv q = true ->
  guardedCursor (markerNavigation q) = cursor q ->
  js_index (markers (markerNavigation q)) (cursor q + 1) = None ->
  keydownListeners (exec (tabNavListener ms0 (tabKey false)) q)
  = match js_index (markers (markerNavigation q)) (cursor q),
          previousMarkerListener (markerNavigation q) with
    | Some _, Some h => detach h (keydownListeners q)
    | _, _ => keydownListeners q
    end.
Proof.
  intros HA HG EN. unfold guardedCursor in HG.
  destruct_page q. unfold cursor in *. simpl in *. subst.
  assert (isTab (tabKey false) = true) as HT by reflexivity.
  assert (shiftKey (tabKey false) = false) as HS by reflexivity.
  destruct (js_index ms' c) eqn:E2; destruct prev; crunch;
    rewrite ?app_nil_r; reflexivity.
Qed.

(** ** The cursor under every action of the host *)

Lemma cursor_bounded ms0 acts p :
  Wired ms0 p ->
  -1 <= cursor p <= Z.of_nat (length ms0) ->
  -1 <= cursor (exec (runHost acts) p) <= Z.of_nat (length ms0).
Proof.
  apply (lift_runHost ms0
           (fun p => -1 <= cursor p <= Z.of_nat (length ms0))); clear.
  - intros e p. destruct_page p. unfold cursor. simpl. intros H.
    crunch; js_facts; lia.
  - intros r e p. destruct_page p. unfold cursor. simpl. intros H.
    crunch; lia.
  - intros p. destruct_page p. unfold cursor. simpl. intros H. crunch; lia.
  - intros b p. destruct_page p. unfold cursor. simpl. intros H. crunch; lia.
  - intros p. destruct_page p. unfold cursor. simpl. intros H. crunch; lia.
  - intros ms p. destruct_page p. unfold cursor. simpl. intros H. crunch; lia.
Qed.

(** ** Selecting and deselecting the same marker *)

Lemma detach_fresh n ls l : fresh n ls -> detach n (ls ++ [(n, l)]) = ls.
Proof.
  intros H. unfold detach. rewrite List.filter_app. cbn [List.filter fst].
  rewrite Nat.eqb_refl. cbn [negb]. rewrite app_nil_r.
  induction H as [|hl ls Hhl _ IH]; [reflexivity|].
  cbn [List.filter]. destruct (Nat.eqb_spec (fst hl) n) as [E|_]; [lia|].
  cbn [negb]. by rewrite IH.
Qed.

Lemma select_deselect (q : Page) (r : Ref) :
  Fresh q ->
  let q1 := exec (__selectMarker (Some r)) q in
  let q2 := exec (__deselectMarker (fst (__selectMarker (Some r) q)) (Some r))
                 q1 in
  keydownListeners q2 = keydownListeners q
  /\ markerNavigation q2 = markerNavigation q
  /\ mapCenter q2 = Some (position (heap q r))
  /\ icon (heap q2 r) = restoreIcon (markerNavigation q)
  /\ (forall r', r' <> r -> heap q2 r' = heap q r')
  /\ effects q2
     = effects q
       ++ [SetIcon r (selectedMarkerIcon (markerNavigation q));
           PanTo (position (heap q r));
           AddListener (nextHandle q) (EnterClick r);
           SetIcon r (restoreIcon (markerNavigation q));
           RemoveListener (nextHandle q)].
Proof.
  intros HF. destruct_page q. unfold Fresh in HF. simpl in HF. cbv zeta.
  crunch. rewrite (detach_fresh _ _ _ HF).
  rewrite icon_heapSetIcon, Nat.eqb_refl, position_heapSetIcon,
    <- !app_assoc.
  repeat split; try reflexivity.
  intros r' Hr. by rewrite !heapSetIcon_other.
Qed.

(** * Further properties *)

(** ** Initialization *)

(** X1: [keyNavInit] can be called on any page, initialized before or
    not.  It replaces the navigation state as a whole: the stored list is
    the one passed, the cursor is -1 and no activation listener is stored;
    an icon path of the configuration is stored only when it is truthy (a
    missing configuration, a missing path and the empty path leave the icon
    undefined); the per-marker icons are the markers' current icons when
    the distinct-icon flag is set and the empty array otherwise.  It adds
    one key-down observer, which closes over the list passed, and one
    focus-out handler to those already attached, and touches neither the
    markers nor the map. *)
Theorem keyNavInit_installs ms icons flag p :
  let p' := exec (keyNavInit ms icons flag) p in
  let nav := markerNavigation p' in
  markers nav = ms
  /\ cursor p' = -1
  /\ previousMarkerListener nav = None
  /\ selectedMarkerIcon nav
     = match icons with
       | Some ic => if truthy (selected ic) then selected ic else None
       | None => None
       end
  /\ deselectedMarkerIcon nav
     = match icons with
       | Some ic => if truthy (deselected ic) then deselected ic else None
       | None => None
       end
  /\ markerIcons nav = (if flag then map (fun r => icon (heap p r)) ms else [])
  /\ keydownListeners p' = keydownListeners p ++ [(nextHandle p, TabNav ms)]
  /\ focusoutListeners p' = S (focusoutListeners p)
  /\ heap p' = heap p
  /\ mapCenter p' = mapCenter p
  /\ effects p' = effects p ++ [AddListener (nextHandle p) (TabNav ms)].
Proof. cbv zeta. rewrite keyNavInit_eq. repeat split. Qed.

(** ** The cursor *)

(** X2: the cursor stays within -1 and the length of the list passed to
    [keyNavInit], both included, whatever the host and the browser do,
    re-binds included: the observer clamps the cursor against the list it
    captured.  As long as the host does not re-bind, the stored list stays
    that list, so the cursor is within its bounds.  Nothing is assumed of
    the markers or the icons. *)
Theorem cursor_stays_in_range hp ms icons flag :
  (forall acts,
     let p := exec (runHost acts) (initPage hp ms icons flag) in
     -1 <= cursor p <= Z.of_nat (length ms))
  /\ (forall evs,
        let p := exec (run evs) (initPage hp ms icons flag) in
        markers (markerNavigation p) = ms).
Proof.
  split.
  - intros acts. cbv zeta. apply cursor_bounded; [apply Wired_initPage|].
    rewrite initPage_eq. unfold cursor. cbn. lia.
  - intros evs. cbv zeta. rewrite markers_run, initPage_eq. reflexivity.
Qed.

(** ** Focus outside the container *)

(** X3: while the container does not have the focus, the cursor is at a
    sentinel (-1 or the list's length), no marker of the list carries the
    selected icon, and the Tab observer is the only key-down listener left
    on the document.  The markers are distinct objects and the selected
    icon tells a selected marker apart, as for C1. *)
Theorem nothing_selected_outside hp ms icons flag evs :
  NoDup ms ->
  (forall r, r ∈ ms -> icon (hp r) <> selectedIconOf icons) ->
  (flag = false -> deselectedIconOf icons <> selectedIconOf icons) ->
  let p := exec (run evs) (initPage hp ms icons flag) in
  activeIsMapDiv p = false ->
  (cursor p = -1 \/ cursor p = Z.of_nat (length ms))
  /\ selectedIndices p = []
  /\ keydownListeners p = [(0%nat, TabNav ms)].
Proof.
  intros Hnd Hms Hde p HA.
  pose proof (Inv_reached hp ms icons flag evs Hnd Hms Hde) as HI.
  fold p in HI.
  pose proof (Inv_selectedIndices _ _ _ _ _ HI) as HS.
  destruct (Wired_Ranged_reached hp ms icons flag evs)
    as [[(es & Hkl & _) _ _ _] _].
  fold p in Hkl.
  destruct HI as [_ _ _ _ _ HR _ (h0 & _ & HL)].
  destruct (js_index ms (cursor p)) as [r|] eqn:E.
  - destruct HL as (h & _ & _ & _ & _ & HA'). congruence.
  - apply js_index_None in E. split; [lia|]. split; [exact HS|].
    rewrite HL in Hkl. injection Hkl as -> _. exact HL.
Qed.

Lemma nothing_selected_outside_witness :
  let p := exec (run [Tab; FocusIn; Tab; Tab; FocusOut]) demoPage in
  selectedIndices p = [] /\ keydownListeners p = [(0%nat, TabNav [0; 1; 2]%nat)].
Proof.
  destruct (nothing_selected_outside pins [0; 1; 2]%nat demoIcons false
              [Tab; FocusIn; Tab; Tab; FocusOut]) as (_ & H1 & H2).
  - apply (bool_decide_unpack _). vm_compute. exact I.
  - intros r _. vm_compute. discriminate.
  - intros _. vm_compute. discriminate.
  - vm_compute. reflexivity.
  - split; [exact H1|exact H2].
Defined.

(** ** Going backward *)

(** X4: entering backward.  After a Shift+Tab outside the container has
    armed the cursor at the list's length N and the focus has entered,
    k Shift+Tabs (1 <= k <= N) leave the cursor at N - k, each of them
    suppressed, the focus still in the container; after N of them the
    cursor is 0, and one more Shift+Tab sets the cursor to -1 and is not
    suppressed, so the focus leaves the container and the cursor is -1. *)
Theorem backward_traversal hp ms icons flag :
  let n := length ms in
  let init := initPage hp ms icons flag in
  (forall k : nat, (1 <= k <= n)%nat ->
     let q := exec (run (ShiftTab :: FocusIn :: replicate k ShiftTab)) init in
     cursor q = Z.of_nat n - Z.of_nat k
     /\ defaultPrevented q = true /\ activeIsMapDiv q = true)
  /\ (let q := exec (run (ShiftTab :: FocusIn :: replicate n ShiftTab)) init in
      let q' := exec (dispatch (tabKey true)) q in
      let q'' := exec (keydown (tabKey true)) q in
      cursor q' = -1 /\ defaultPrevented q' = false
      /\ cursor q'' = -1 /\ activeIsMapDiv q'' = false).
Proof.
  cbv zeta. split.
  - intros k Hk.
    destruct (backward_tabs hp ms icons flag k) as (Hc & Ha & Hd); [lia|].
    repeat split; [exact Hc|apply Hd; lia|exact Ha].
  - destruct (backward_tabs hp ms icons flag (length ms)) as (Hc & Ha & _);
      [lia|].
    destruct (Wired_Ranged_reached hp ms icons flag
                (ShiftTab :: FocusIn :: replicate (length ms) ShiftTab))
      as [W R].
    set (q := exec (run _) _) in *.
    pose proof (dispatch_tab_inside ms true q W R Ha) as H. cbv zeta in H.
    destruct H as (Hc' & Hd' & Ha').
    assert (exits (Z.of_nat (length ms)) (cursor q) true = true) as He.
    { unfold exits. apply Z.leb_le. lia. }
    rewrite He in Hd'. cbn [negb] in Hd'.
    assert (cursor (exec (dispatch (tabKey true)) q) = -1) as Hc1.
    { rewrite Hc'. unfold stepCursor.
      destruct (Z.leb_spec (cursor q - 1) (-1)); lia. }
    split; [exact Hc1|]. split; [exact Hd'|].
    rewrite exec_keydown, defaultAction_leaves by done.
    split; [|apply focusout_inactive].
    apply focusout_cursor.
    apply (wired_focusout ms).
    rewrite exec_dispatch. apply Wired_dispatchKeydown, Wired_newEvent, W.
Qed.

Lemma backward_traversal_witness :
  let q := exec (run [ShiftTab; FocusIn; ShiftTab; ShiftTab]) demoPage in
  cursor q = 1 /\ defaultPrevented q = true /\ activeIsMapDiv q = true.
Proof.
  destruct (backward_traversal pins [0; 1; 2]%nat demoIcons false) as [H _].
  apply (H 2%nat). cbn. lia.
Defined.

(** ** Keys other than Tab *)

(** X5: a key-down of a key other than Tab, whatever the host has done
    before (re-binds included), changes nothing on the page but the log of
    calls: the cursor, the stored list, the icons, the listeners and the
    focus stay, and the event is not suppressed.  When the key is Enter
    and the container has the focus, one click is triggered for each live
    Enter listener, oldest first; otherwise no call is made. *)
Theorem other_keys_only_click hp ms icons flag acts (e : KeyEvent) :
  isTab e = false ->
  let p := exec (runHost acts) (initPage hp ms icons flag) in
  exec (keydown e) p
  = addEffects (if activeIsMapDiv p && isEnter e then enterClicks p else [])
               (exec newEvent p).
Proof.
  intros HT p. apply (keydown_other ms); [apply Wired_reached|exact HT].
Qed.

Lemma other_keys_only_click_witness :
  let p := exec (runHost [Input Tab; Input FocusIn; Input Tab])
                (initPage pins [0; 1; 2]%nat demoIcons false) in
  exec (keydown enterKey) p
  = addEffects (if activeIsMapDiv p && isEnter enterKey then enterClicks p else [])
               (exec newEvent p).
Proof.
  exact (other_keys_only_click pins [0; 1; 2]%nat demoIcons false
           [Input Tab; Input FocusIn; Input Tab] enterKey eq_refl).
Defined.

(** ** Listeners across a re-bind *)

(** X6: a key-down listener that is attached when the host re-binds the
    marker list is never detached afterwards, whatever the host and the
    browser do next.  [updateMarkerCount] clears the stored handle without
    removing the listener, and the controller only ever removes the handle
    it has stored, which from then on is a newer one.  For the Enter
    listener of the marker selected at the re-bind this is a leak. *)
Theorem listener_live_at_rebind_stays hp ms icons flag acts1 new acts2
                                      (h : Handle) (l : Listener) :
  let p := exec (runHost acts1) (initPage hp ms icons flag) in
  (h, l) ∈ keydownListeners p ->
  (h, l) ∈ keydownListeners (exec (runHost (Rebind new :: acts2)) p).
Proof.
  intros p HL. subst p. rewrite <- exec_runHost_app.
  by apply (kept_attached h l), Kept_rebound.
Qed.

Lemma listener_live_at_rebind_stays_witness :
  let p := exec (runHost [Input Tab; Input FocusIn; Input Tab])
                (initPage pins [0; 1; 2]%nat demoIcons false) in
  (1%nat, EnterClick 0) ∈ keydownListeners p
  /\ (1%nat, EnterClick 0)
     ∈ keydownListeners
         (exec (runHost [Rebind [0; 1; 2]%nat; Input Tab; Input Tab;
                         Input FocusOut]) p).
Proof.
  assert ((1%nat, EnterClick 0)
          ∈ keydownListeners
              (exec (runHost [Input Tab; Input FocusIn; Input Tab])
                    (initPage pins [0; 1; 2]%nat demoIcons false))) as H.
  { apply (bool_decide_unpack _). vm_compute. exact I. }
  split; [exact H|].
  exact (listener_live_at_rebind_stays pins [0; 1; 2]%nat demoIcons false
           [Input Tab; Input FocusIn; Input Tab] [0; 1; 2]%nat
           [Input Tab; Input Tab; Input FocusOut] 1%nat (EnterClick 0) H).
Defined.

(** X7: the Enter listener of a marker that was live when the host
    re-bound the list keeps firing: on every page reached afterwards, an
    Enter key-down with the container focused triggers a click on that
    marker, wherever the cursor is by then. *)
Theorem lost_listener_still_clicks hp ms icons flag acts1 new acts2
                                   (h : Handle) (r : Ref) :
  let p := exec (runHost acts1) (initPage hp ms icons flag) in
  (h, EnterClick r) ∈ keydownListeners p ->
  let p' := exec (runHost (Rebind new :: acts2)) p in
  activeIsMapDiv p' = true ->
  (clicks r p' < clicks r (exec (keydown enterKey) p'))%nat.
Proof.
  intros p HL p' HA. subst p p'. rewrite <- exec_runHost_app in *.
  pose proof (kept_attached _ _ _
                (Kept_rebound hp ms icons flag acts1 new acts2 h _ HL)) as HK.
  rewrite (keydown_other ms) by (first [apply Wired_reached|reflexivity]).
  rewrite HA. change (true && isEnter enterKey) with true. cbv iota.
  rewrite clicks_addEffects, clicks_newEvent.
  pose proof (filter_elem_pos _ _ (enterClicks_elem _ _ _ HK)) as HP.
  lia.
Qed.

Lemma lost_listener_still_clicks_witness :
  (clicks 0
     (exec (runHost [Rebind [0; 1; 2]%nat; Input Tab])
           (exec (runHost [Input Tab; Input FocusIn; Input Tab])
                 (initPage pins [0; 1; 2]%nat demoIcons false)))
   < clicks 0
       (exec (keydown enterKey)
          (exec (runHost [Rebind [0; 1; 2]%nat; Input Tab])
                (exec (runHost [Input Tab; Input FocusIn; Input Tab])
                      (initPage pins [0; 1; 2]%nat demoIcons false)))))%nat.
Proof.
  apply (lost_listener_still_clicks pins [0; 1; 2]%nat demoIcons false
           [Input Tab; Input FocusIn; Input Tab] [0; 1; 2]%nat [Input Tab]
           1%nat 0%nat).
  - apply (bool_decide_unpack _). vm_compute. exact I.
  - vm_compute. reflexivity.
Defined.

(** ** Icons *)

(** X8: [updateMarkerCount] reads the markers' icons as they are at the
    re-bind, in every mode.  When the marker at the cursor is deselected
    next (by a step or by a focus loss), it gets the icon it carried at the
    re-bind, not the configured deselected icon; a marker that was selected
    at the re-bind so keeps the selected icon. *)
Theorem rebind_restores_icon_at_rebind (new : list Ref) (p : Page)
                                       (listener : option Handle) (r : Ref) :
  js_index new (cursor p) = Some r ->
  let p1 := exec (updateMarkerCount new) p in
  let p2 := exec (__deselectMarker listener
                    (js_index (markers (markerNavigation p1)) (cursor p1))) p1 in
  icon (heap p2 r) = icon (heap p r)
  /\ effects p2 = effects p ++ SetIcon r (icon (heap p r))
                            :: match listener with
                               | Some h => [RemoveListener h]
                               | None => []
                               end.
Proof.
  destruct_page p. unfold cursor. simpl. intros E.
  assert (restoreIcon
            {| markers := new; currentMarker := c;
               markerIcons := map (fun r0 => icon (hp r0)) new;
               selectedMarkerIcon := sel'; deselectedMarkerIcon := de';
               previousMarkerListener := None |} = icon (hp r)) as HR.
  { unfold restoreIcon. cbn [markerIcons currentMarker deselectedMarkerIcon].
    pose proof E as E'. apply js_index_Some in E' as [E0 E'].
    rewrite length_map.
    destruct (Nat.eqb_spec (length new) 0) as [Z|_].
    { apply lookup_lt_Some in E'. lia. }
    unfold js_index in *. destruct (c <? 0); [discriminate|].
    change (map (fun r0 => icon (hp r0)) new)
      with ((fun r0 => icon (hp r0)) <$> new).
    by rewrite list_lookup_fmap, E. }
  destruct listener; crunch; rewrite HR, icon_heapSetIcon, Nat.eqb_refl;
    rewrite <- ?app_assoc; split; reflexivity.
Qed.

Lemma rebind_restores_icon_at_rebind_witness :
  let p := exec (run [Tab; FocusIn; Tab]) demoPage in
  let p1 := exec (updateMarkerCount [0%nat]) p in
  let p2 := exec (__deselectMarker None
                    (js_index (markers (markerNavigation p1)) (cursor p1))) p1 in
  icon (heap p2 0%nat) = Some "sel"%string.
Proof.
  cbv zeta.
  destruct (rebind_restores_icon_at_rebind [0%nat]
              (exec (run [Tab; FocusIn; Tab]) demoPage) None 0%nat) as [H _].
  - vm_compute. reflexivity.
  - rewrite H. vm_compute. reflexivity.
Defined.

(** X9: as long as the host does not re-bind, a marker of the list that
    is not at the cursor carries its own icon or a restored one.  In
    distinct-icon mode it carries the icon it had when [keyNavInit] ran: a
    selection and the deselection that follows give a marker its icon
    back.  Otherwise it carries the icon it had at initialization (it was
    never selected) or the configured deselected icon.  The markers are
    distinct objects and the selected icon tells a selected marker apart,
    as for C1. *)
Theorem unselected_markers_keep_icon hp ms icons flag evs (i : nat) (r : Ref) :
  NoDup ms ->
  (forall r, r ∈ ms -> icon (hp r) <> selectedIconOf icons) ->
  (flag = false -> deselectedIconOf icons <> selectedIconOf icons) ->
  let p := exec (run evs) (initPage hp ms icons flag) in
  ms !! i = Some r -> Z.of_nat i <> cursor p ->
  if flag then icon (heap p r) = icon (hp r)
  else icon (heap p r) = icon (hp r)
       \/ icon (heap p r) = deselectedIconOf icons.
Proof. apply unselected_icon. Qed.

Lemma unselected_markers_keep_icon_witness :
  let p := exec (run [Tab; FocusIn; Tab; Tab])
                (initPage pins [0; 1; 2]%nat demoIcons true) in
  cursor p = 1 /\ icon (heap p 0%nat) = Some "pin"%string.
Proof.
  cbv zeta. split; [vm_compute; reflexivity|].
  apply (unselected_markers_keep_icon pins [0; 1; 2]%nat demoIcons true
           [Tab; FocusIn; Tab; Tab] 0%nat 0%nat).
  - apply (bool_decide_unpack _). vm_compute. exact I.
  - intros r _. vm_compute. discriminate.
  - intros H. discriminate H.
  - reflexivity.
  - vm_compute. discriminate.
Defined.

(** X10: the round trip of distinct-icon mode.  As long as the host does
    not re-bind, whenever the focus is outside the container every marker
    object is exactly as [keyNavInit] found it, icon and position: all the
    selections made while the focus was inside have been undone.  Nothing
    is assumed of the markers or the icons. *)
Theorem distinct_mode_round_trip hp ms icons evs :
  let p := exec (run evs) (initPage hp ms icons true) in
  activeIsMapDiv p = false ->
  forall r : Ref, heap p r = hp r.
Proof.
  intros p HA r.
  destruct (Restored_reached hp ms icons evs) as [_ _ R2]. fold p in R2.
  apply R2.
  destruct (Listening_reached hp ms icons true evs) as [_ _ _ (h0 & _ & HL)].
  fold p in HL. intros E. rewrite E in HL.
  destruct HL as (h & _ & _ & _ & _ & HA'). congruence.
Qed.

Lemma distinct_mode_round_trip_witness :
  heap (exec (run [Tab; FocusIn; Tab; Tab; Tab; Tab])
             (initPage pins [0; 1; 2]%nat demoIcons true)) 1%nat
  = pins 1%nat.
Proof.
  apply (distinct_mode_round_trip pins [0; 1; 2]%nat demoIcons
           [Tab; FocusIn; Tab; Tab; Tab; Tab]).
  vm_compute. reflexivity.
Defined.

(** ** The map *)

(** X11: as long as the host does not re-bind, whenever the cursor is on
    a marker of the list the map is centred on that marker's position:
    every step that moves the cursor onto a marker pans the map to it, and
    nothing else pans the map or moves a marker.  Nothing is assumed of the
    markers or the icons. *)
Theorem map_centred_on_selection hp ms icons flag evs (r : Ref) :
  let p := exec (run evs) (initPage hp ms icons flag) in
  js_index (markers (markerNavigation p)) (cursor p) = Some r ->
  mapCenter p = Some (position (heap p r)).
Proof.
  intros p H.
  destruct (Tended_reached hp ms icons flag evs) as [T1 _ T3 T4].
  fold p in T1, T3, T4. rewrite T3. apply T4. by rewrite <- T1.
Qed.

Lemma map_centred_on_selection_witness :
  mapCenter (exec (run [Tab; FocusIn; Tab; Tab])
                  (initPage pins [0; 1; 2]%nat demoIcons false))
  = Some (position (heap (exec (run [Tab; FocusIn; Tab; Tab])
                               (initPage pins [0; 1; 2]%nat demoIcons false))
                         1%nat)).
Proof.
  apply (map_centred_on_selection pins [0; 1; 2]%nat demoIcons false
           [Tab; FocusIn; Tab; Tab] 1%nat).
  vm_compute. reflexivity.
Defined.

(** ** Markers outside the list *)

(** X12: as long as the host does not re-bind, the controller never
    writes to a marker that is not in the list passed to [keyNavInit]:
    such a marker stays as it was, whatever key and focus events occur. *)
Theorem markers_outside_list_untouched hp ms icons flag evs (r : Ref) :
  r ∉ ms ->
  heap (exec (run evs) (initPage hp ms icons flag)) r = hp r.
Proof.
  intros H.
  exact (tended_others ms hp _ (Tended_reached hp ms icons flag evs) r H).
Qed.

Lemma markers_outside_list_untouched_witness :
  heap (exec (run [Tab; FocusIn; Tab; Tab; Tab; Tab])
             (initPage pins [0; 1; 2]%nat demoIcons false)) 7%nat
  = pins 7%nat.
Proof.
  apply (markers_outside_list_untouched pins [0; 1; 2]%nat demoIcons false
           [Tab; FocusIn; Tab; Tab; Tab; Tab] 7%nat).
  apply (bool_decide_unpack _). vm_compute. exact I.
Defined.

(** ** The icons the controller sets *)

(** X13: without the distinct-icon flag, and as long as the host does not
    re-bind, every icon the controller passes to [setIcon] is the stored
    selected icon or the stored deselected icon; with no icon
    configuration both are undefined, so every call is
    [setIcon(undefined)]. *)
Theorem shared_mode_sets_configured_icons hp ms icons evs :
  let p := exec (run evs) (initPage hp ms icons false) in
  forall (r : Ref) (i : Icon), SetIcon r i ∈ effects p ->
    i = selectedIconOf icons \/ i = deselectedIconOf icons.
Proof.
  intros p r i H.
  destruct (Plain_reached hp ms icons evs) as [_ _ _ HP]. fold p in HP.
  rewrite Forall_forall in HP. exact (HP _ H r i eq_refl).
Qed.

Lemma shared_mode_sets_configured_icons_witness :
  (None : Icon) = selectedIconOf None \/ (None : Icon) = deselectedIconOf None.
Proof.
  apply (shared_mode_sets_configured_icons pins [0; 1; 2]%nat None
           [Tab; FocusIn; Tab; Tab] 0%nat None).
  apply (bool_decide_unpack _). vm_compute. exact I.
Defined.

(** ** No markers *)

(** X14: with an empty marker list the controller is inert.  Whatever
    key and focus events occur, it makes no call to a marker or the map and
    attaches no listener beyond its observer, and a Tab or Shift+Tab in the
    container is never suppressed: line 167 sets the cursor to 0, the step
    finds no marker, and the exit test lets the focus move on. *)
Theorem empty_list_is_inert hp icons flag evs :
  let p := exec (run evs) (initPage hp [] icons flag) in
  effects p = [AddListener 0 (TabNav [])]
  /\ heap p = hp
  /\ mapCenter p = None
  /\ (activeIsMapDiv p = true -> forall shift,
      defaultPrevented (exec (dispatch (tabKey shift)) p) = false).
Proof.
  cbv zeta. destruct (empty_run hp icons flag evs) as (H1 & H2 & H3).
  split; [exact H1|]. split; [exact H2|]. split; [exact H3|].
  intros HA shift.
  destruct (Wired_Ranged_reached hp [] icons flag evs) as [W R].
  pose proof (dispatch_tab_inside [] shift _ W R HA) as H. cbv zeta in H.
  destruct H as (_ & -> & _). destruct R as [_ R]. cbn [length] in *.
  unfold exits. destruct shift.
  - destruct (Z.leb_spec (cursor (exec (run evs) (initPage hp [] icons flag)) - 1) (-1));
      [reflexivity|lia].
  - destruct (Z.leb_spec (Z.of_nat 0)
                (cursor (exec (run evs) (initPage hp [] icons flag)) + 1));
      [reflexivity|lia].
Qed.

Lemma empty_list_is_inert_witness :
  defaultPrevented
    (exec (dispatch (tabKey false))
          (exec (run [FocusIn]) (initPage pins [] demoIcons false))) = false.
Proof.
  destruct (empty_list_is_inert pins demoIcons false [FocusIn])
    as (_ & _ & _ & H).
  apply H. reflexivity.
Defined.

(** ** Initializing twice *)

(** X15: [keyNavInit] does not guard against a second call.  After two
    calls with the same list two Tab observers and two focus-out handlers
    are attached, and both observers run on every key-down: with at least
    two markers, the first Tab in the container selects marker 0 and, in
    the same key-down, marker 1, deselecting marker 0 again; the cursor
    ends on 1 and only the Enter listener of marker 1 is left. *)
Theorem double_init_skips_marker hp ms icons flag (r0 r1 : Ref) :
  ms !! 0%nat = Some r0 -> ms !! 1%nat = Some r1 ->
  let p0 := exec (keyNavInit ms icons flag) (initPage hp ms icons flag) in
  let p := exec (run [FocusIn; Tab]) p0 in
  keydownListeners p0 = [(0%nat, TabNav ms); (1%nat, TabNav ms)]
  /\ focusoutListeners p0 = 2%nat
  /\ cursor p = 1
  /\ defaultPrevented p = true
  /\ effects p
     = effects p0
       ++ [SetIcon r0 (selectedIconOf icons); PanTo (position (hp r0));
           AddListener 2 (EnterClick r0);
           SetIcon r1 (selectedIconOf icons); PanTo (position (hp r1));
           AddListener 3 (EnterClick r1);
           SetIcon r0 (restoreIconAt (markerNavigation p0) 0);
           RemoveListener 2]
  /\ enterListeners p = [(3%nat, r1)].
Proof.
  intros L0 L1. cbv zeta. rewrite keyNavInit_eq, initPage_eq.
  cbn [heap mapCenter keydownListeners nextHandle focusoutListeners
       activeIsMapDiv defaultPrevented effects app].
  assert (js_index ms (-1 + 1) = Some r0) as E0 by exact L0.
  assert (js_index ms (-1 + 1 + 1) = Some r1) as E1 by exact L1.
  assert (isTab (tabKey false) = true) as HT by reflexivity.
  assert (isEnter (tabKey false) = false) as HE by reflexivity.
  assert (shiftKey (tabKey false) = false) as HS by reflexivity.
  split; [reflexivity|]. split; [reflexivity|].
  unfold enterListeners, Tab. cbn [run].
  crunch. rewrite ?position_heapSetIcon, <- ?app_assoc.
  repeat split; try reflexivity.
Qed.

Lemma double_init_skips_marker_witness :
  cursor (exec (run [FocusIn; Tab])
               (exec (keyNavInit [0; 1; 2]%nat demoIcons false)
                     (initPage pins [0; 1; 2]%nat demoIcons false))) = 1.
Proof.
  destruct (double_init_skips_marker pins [0; 1; 2]%nat demoIcons false
              0%nat 1%nat eq_refl eq_refl) as (_ & _ & H & _).
  exact H.
Defined.

(** ** After a re-bind to a shorter list *)

(** X16: the observer tests the exit against the list it captured, so
    after a re-bind to a shorter list the Tab key is held in the container
    past the end of the stored list.  When the stored list is not empty and
    the index after the cursor is past its end but below the initial
    list's length, a Tab in the container is suppressed and moves the
    cursor there although no marker is selected: the cursor is on no
    marker, the focus stays in the container, and the only listener
    change is the removal of the stored one when the cursor was on a
    marker. *)
Theorem tab_swallowed_past_shorter_list hp ms0 icons flag acts :
  let p := exec (runHost acts) (initPage hp ms0 icons flag) in
  let new := markers (markerNavigation p) in
  activeIsMapDiv p = true ->
  new <> [] ->
  Z.of_nat (length new) <= cursor p + 1 < Z.of_nat (length ms0) ->
  let p' := exec (keydown (tabKey false)) p in
  cursor p' = cursor p + 1
  /\ defaultPrevented p' = true
  /\ activeIsMapDiv p' = true
  /\ js_index (markers (markerNavigation p')) (cursor p') = None
  /\ keydownListeners p'
     = match js_index new (cursor p),
             previousMarkerListener (markerNavigation p) with
       | Some _, Some h => detach h (keydownListeners p)
       | _, _ => keydownListeners p
       end.
Proof.
  intros p new HA Hne Hc. cbv zeta.
  pose proof (Wired_reached hp ms0 icons flag acts) as W. fold p in W.
  assert (guardedCursor (markerNavigation p) = cursor p) as HG.
  { unfold guardedCursor. fold new. destruct new; [done|reflexivity]. }
  assert (exec (dispatch (tabKey false)) p
          = exec (tabNavListener ms0 (tabKey false)) (exec newEvent p)) as HD.
  { by apply dispatch_tab. }
  pose proof (tabNavListener_inside ms0 (tabKey false) (exec newEvent p)
                eq_refl HA) as H.
  cbv zeta in H. destruct H as (H1 & H2 & H3 & H4 & _).
  change (markerNavigation (exec newEvent p)) with (markerNavigation p)
    in H1, H2, H4.
  rewrite HG in H1, H2. cbn [shiftKey tabKey stepOf negb andb] in H1, H2.
  destruct (Z.leb_spec (Z.of_nat (length ms0)) (cursor p + 1)) as [?|_];
    [lia|].
  rewrite andb_false_r in H1, H2. cbn [orb] in H1, H2.
  rewrite <- HD in H1, H2, H3, H4.
  rewrite exec_keydown, defaultAction_suppressed by exact H2.
  split; [exact H1|]. split; [exact H2|]. split; [exact H3|].
  split.
  - rewrite H4, H1. apply js_index_None. right. exact (proj1 Hc).
  - rewrite HD. apply (tabNavListener_absent ms0 (exec newEvent p)).
    + exact HA.
    + exact HG.
    + apply js_index_None. right. exact (proj1 Hc).
Qed.

Lemma tab_swallowed_past_shorter_list_witness :
  let p := exec (runHost [Input Tab; Input FocusIn; Input Tab; Rebind [0%nat]])
                (initPage pins [0; 1; 2]%nat demoIcons false) in
  let p' := exec (keydown (tabKey false)) p in
  cursor p' = cursor p + 1 /\ defaultPrevented p' = true.
Proof.
  cbv zeta.
  destruct (tab_swallowed_past_shorter_list pins [0; 1; 2]%nat demoIcons false
              [Input Tab; Input FocusIn; Input Tab; Rebind [0%nat]])
    as (H1 & H2 & _).
  - vm_compute. reflexivity.
  - vm_compute. discriminate.
  - vm_compute. split; [intros H; discriminate H|reflexivity].
  - split; [exact H1|exact H2].
Defined.

(** ** Losing the focus twice *)

(** X17: losing the focus is idempotent.  On every page, with any number
    of focus-out handlers attached, a second focus loss right after the
    first changes nothing: the first has deselected the marker at the
    cursor and reset the cursor to -1, where the handler finds no marker
    and makes no call. *)
Theorem focusout_twice (p : Page) :
  exec focusout (exec focusout p) = exec focusout p.
Proof.
  rewrite (exec_focusout (exec focusout p)).
  assert (focusoutListeners (exec focusout p) = focusoutListeners p) as ->.
  { rewrite exec_focusout.
    change (focusoutListeners (exec (setActive false) ?q))
      with (focusoutListeners q).
    apply focusoutListeners_repeatM. }
  rewrite exec_focusout.
  set (q := exec (repeatM (focusoutListeners p) focusoutListener) p).
  assert (exec (repeatM (focusoutListeners p) focusoutListener)
               (exec (setActive false) q) = exec (setActive false) q) as ->.
  { destruct (focusoutListeners p) as [|n] eqn:En; [reflexivity|].
    apply repeatM_settled. rewrite focusoutListener_setActive.
    subst q. by rewrite repeatM_settles. }
  generalize q. clear. intros q. by destruct q.
Qed.

(** ** Selecting and deselecting the same marker *)

(** X18: on every page the host can reach, selecting a marker and then
    deselecting it with the listener the selection returned is a round
    trip for the listeners and the navigation state: the Enter listener
    that was attached is the one removed, every other listener stays, the
    cursor and the stored handle are untouched, and no other marker is
    written.  What remains is the marker's icon, which is the restored
    one, and the map, which stays panned to the marker. *)
Theorem select_deselect_round_trip hp ms icons flag acts (r : Ref) :
  let p := exec (runHost acts) (initPage hp ms icons flag) in
  let p1 := exec (__selectMarker (Some r)) p in
  let p2 := exec (__deselectMarker (fst (__selectMarker (Some r) p)) (Some r))
                 p1 in
  keydownListeners p2 = keydownListeners p
  /\ markerNavigation p2 = markerNavigation p
  /\ mapCenter p2 = Some (position (heap p r))
  /\ icon (heap p2 r) = restoreIcon (markerNavigation p)
  /\ (forall r', r' <> r -> heap p2 r' = heap p r')
  /\ effects p2
     = effects p
       ++ [SetIcon r (selectedMarkerIcon (markerNavigation p));
           PanTo (position (heap p r));
           AddListener (nextHandle p) (EnterClick r);
           SetIcon r (restoreIcon (markerNavigation p));
           RemoveListener (nextHandle p)].
Proof. apply select_deselect, Fresh_reached. Qed.
